(** * Moka: chainable wrappers around Python's list and dict

    A shallow embedding of [moka/__init__.py] and the properties of its
    two classes, [List] and [Dict].

    How the Python program is read:
    - a Python value is a [val]; containers live in a store ([heap]) and a
      value refers to them by address ([VRef]), so that "the same object"
      and "a new object" are different things;
    - a method is a function from the store to an [outcome]: either a
      returned value with the store it leaves, or a raised exception;
    - a callback handed to a method (user code) is a [pyfun]: it receives
      the positional and the keyword arguments, may inspect the store and
      may raise, and does not write to the store;
    - a generator expression runs nothing when it is made; its consumer
      decides whether, and how far, it is run. [self[:] = items] runs it
      to its end before anything is assigned; [dict(items)] stores each
      item before it asks for the next one;
    - the language is Python 3 on a 64-bit build: a dict keeps the order
      of insertion, an index has to fit a C [ssize_t].

    [List.attr], [List.item] and [List.invoke] are [map] over a lookup on
    each item; the values here have no attributes, and the lookups are
    parameters. [List.__getslice__] asks for [list.__getslice__], which
    Python 3 does not have, and is left out. *)

From stdpp Require Import base option list strings numbers.
From Stdlib Require Import ZArith Lia.

Local Open Scope Z_scope.
Local Open Scope list_scope.

(** ** Values, objects and the store *)

Abbreviation addr := nat.

(** [VBlank] is the class [Blank] (bound to [_] in the source), used as the
    placeholder of partial application. [VPair] is a tuple of two. *)
Inductive val : Type :=
| VNone
| VBool (b : bool)
| VInt (z : Z)
| VStr (s : string)
| VBlank
| VPair (x y : val)
| VRef (a : addr).

Global Instance val_eq_dec : EqDecision val.
Proof. solve_decision. Defined.

Abbreviation kwargs := (list (string * val)).

(** An instance of [List] holds its items and, once [tee] has run, the
    attribute [last_value]. An instance of [Dict] holds its entries in
    insertion order, the attribute [_moka_save] and, once [do] has run,
    [last_value]. *)
Inductive obj : Type :=
| OList (items : list val) (last_value : option val)
| ODict (entries : list (val * val)) (moka_save : bool)
        (last_value : option val).

Abbreviation heap := (list obj).

(** The exceptions of the builtins used here and of the example
    callbacks. [StopIteration] is not one of them: a callback that raised
    it inside a generator expression would see it come out as
    [RuntimeError]. *)
Inductive exn : Type :=
| TypeError
| ValueError
| AttributeError
| ZeroDivisionError
| OverflowError.

Inductive result (A : Type) : Type :=
| Ok (x : A)
| Raise (e : exn).
Arguments Ok {A} x.
Arguments Raise {A} e.

Definition bind {A B} (m : result A) (k : A -> result B) : result B :=
  match m with
  | Ok x => k x
  | Raise e => Raise e
  end.

Notation "x <- m ;; k" := (bind m (fun x => k))
  (at level 100, m at next level, right associativity).

(** What a method call leaves behind: the value it returns and the store. *)
Definition outcome := result (val * heap).

(** The value of an outcome, the store forgotten. *)
Definition value_of (o : outcome) : result val :=
  r <- o ;; Ok (fst r).

Definition pyfun := heap -> list val -> kwargs -> result val.

(** [*args] of a chain method: empty, or the callback followed by the
    values to bind to it. *)
Definition star_args := option (pyfun * list val).

Definition method := addr -> star_args -> kwargs -> heap -> outcome.

(** [alloc o h]: a new object, at an address no value refers to yet. *)
Definition alloc (o : obj) (h : heap) : addr * heap :=
  (length h, h ++ [o]).

(** ** Python's own operations on values *)

(** [bool(v)] *)
Definition truthy (h : heap) (v : val) : bool :=
  match v with
  | VNone => false
  | VBool b => b
  | VInt z => negb (z =? 0)
  | VStr s => negb (String.eqb s "")
  | VBlank => true
  | VPair _ _ => true
  | VRef a =>
      match h !! a with
      | Some (OList l _) => match l with [] => false | _ => true end
      | Some (ODict es _ _) => match es with [] => false | _ => true end
      | None => true
      end
  end.

(** [v == Blank]: only the class itself is equal to it. *)
Definition is_Blank (v : val) : bool :=
  match v with
  | VBlank => true
  | _ => false
  end.

(** [Blank in args] *)
Definition Blank_in (args : list val) : bool := existsb is_Blank args.

(** [args.index(Blank)] *)
Fixpoint index_Blank (args : list val) : result nat :=
  match args with
  | [] => Raise ValueError
  | v :: args' =>
      if is_Blank v then Ok 0%nat
      else (i <- index_Blank args' ;; Ok (S i))
  end.

(** ** The binder of [List]: [_f] and the callables it returns *)

(** The three callables [_f] can return, with what each has captured.
    [Tmp] is the inner function [tmp]: it owns the list [args] and writes
    its argument into it at [pos] on every call. *)
Inductive closure : Type :=
| Lambda1 (f : pyfun)
| LambdaArgs (f : pyfun) (args : list val) (kw : kwargs)
| Tmp (f : pyfun) (args : list val) (pos : nat) (kw : kwargs).

Definition is_nil {A} (l : list A) : bool :=
  match l with
  | [] => true
  | _ => false
  end.

(** [not args], for the [*args] of a chain method. *)
Definition no_args (sargs : star_args) : bool :=
  match sargs with
  | None => true
  | Some _ => false
  end.

(** Calling the callable on [x]: what it returns, and the callable with
    its captured list as the call leaves it. *)
Definition call (c : closure) (h : heap) (x : val) : closure * result val :=
  match c with
  | Lambda1 f => (c, f h [x] [])
  | LambdaArgs f args kw => (c, f h (x :: args) kw)
  | Tmp f args pos kw =>
      let args' := <[pos := x]> args in
      (Tmp f args' pos kw, f h args' kw)
  end.

(** [for x in v]: the items a value yields when iterated. *)
Definition chars (s : string) : list val :=
  (fun c => VStr (String c EmptyString)) <$> String.list_ascii_of_string s.

Definition iterate (h : heap) (v : val) : result (list val) :=
  match v with
  | VStr s => Ok (chars s)
  | VPair x y => Ok [x; y]
  | VRef a =>
      match h !! a with
      | Some (OList l _) => Ok l
      | Some (ODict es _ _) => Ok (fst <$> es)
      | None => Raise TypeError
      end
  | _ => Raise TypeError
  end.

(** [len(v)] *)
Definition len (h : heap) (v : val) : result Z :=
  match v with
  | VStr s => Ok (Z.of_nat (String.length s))
  | VPair _ _ => Ok 2
  | VRef a =>
      match h !! a with
      | Some (OList l _) => Ok (Z.of_nat (length l))
      | Some (ODict es _ _) => Ok (Z.of_nat (length es))
      | None => Raise TypeError
      end
  | _ => Raise TypeError
  end.

(** [v.m(...)]: a method is found on an object only. *)
Definition send (v : val) (m : addr -> heap -> outcome) (h : heap) : outcome :=
  match v with
  | VRef a => m a h
  | _ => Raise AttributeError
  end.

(** ** The builtin list methods that [List] wraps

    [list.m(inst, *args, **kwargs)] changes the items of [inst] and returns
    nothing: a [builtin] gives the items [inst] holds afterwards. *)
Definition builtin := heap -> list val -> list val -> kwargs -> result (list val).

Definition list_append : builtin := fun _ l args kw =>
  match args, kw with
  | [x], [] => Ok (l ++ [x])
  | _, _ => Raise TypeError
  end.

Definition list_extend : builtin := fun h l args kw =>
  match args, kw with
  | [it], [] => ys <- iterate h it ;; Ok (l ++ ys)
  | _, _ => Raise TypeError
  end.

Definition list_reverse : builtin := fun _ l args kw =>
  match args, kw with
  | [], [] => Ok (rev l)
  | _, _ => Raise TypeError
  end.

(** [list.insert(i, x)]: a negative index counts from the end, and an
    index outside the list is brought back to its nearest end. *)
Definition insert_at (i : Z) (x : val) (l : list val) : list val :=
  let n := Z.of_nat (length l) in
  let i := if i <? 0 then Z.max 0 (i + n) else Z.min i n in
  take (Z.to_nat i) l ++ x :: drop (Z.to_nat i) l.

(** [sys.maxsize], the largest C [ssize_t], on a 64-bit build. *)
Definition maxsize : Z := 2 ^ 63 - 1.

(** An integer given as an index has to fit a C [ssize_t]. *)
Definition as_ssize_t (i : Z) : result Z :=
  if (- maxsize - 1 <=? i) && (i <=? maxsize) then Ok i
  else Raise OverflowError.

Definition list_insert : builtin := fun _ l args kw =>
  match args, kw with
  | [VInt i; x], [] => i <- as_ssize_t i ;; Ok (insert_at i x l)
  | [VBool b; x], [] => Ok (insert_at (if b then 1 else 0) x l)
  | _, _ => Raise TypeError
  end.

(** [lambda x: body] *)
Definition lambda1 (body : heap -> val -> result val) : pyfun :=
  fun h args kw =>
    match args, kw with
    | [x], [] => body h x
    | _, _ => Raise TypeError
    end.

(** [getattr(list, method_name)]. The order [list.sort] puts arbitrary
    Python values in is not part of this development: [list_sort] is taken
    as it comes. *)
Definition getattr_list (list_sort : builtin) (method_name : string)
  : result builtin :=
  if String.eqb method_name "append" then Ok list_append
  else if String.eqb method_name "extend" then Ok list_extend
  else if String.eqb method_name "sort" then Ok list_sort
  else if String.eqb method_name "reverse" then Ok list_reverse
  else if String.eqb method_name "insert" then Ok list_insert
  else Raise AttributeError.

(** ** Loops and generator expressions over the items of a [List]

    Each threads the callable through its calls, as [tmp] keeps what the
    previous call wrote. *)

(** [f(x) for x in self] *)
Fixpoint gen_map (c : closure) (h : heap) (l : list val) : result (list val) :=
  match l with
  | [] => Ok []
  | x :: l' =>
      let (c', r) := call c h x in
      y <- r ;;
      ys <- gen_map c' h l' ;;
      Ok (y :: ys)
  end.

(** [x for x in self if f(x)] when [sense] is [true],
    [x for x in self if not f(x)] when it is [false]. *)
Fixpoint gen_filter (sense : bool) (c : closure) (h : heap) (l : list val)
  : result (list val) :=
  match l with
  | [] => Ok []
  | x :: l' =>
      let (c', r) := call c h x in
      y <- r ;;
      xs <- gen_filter sense c' h l' ;;
      Ok (if bool_decide (truthy h y = sense) then x :: xs else xs)
  end.

(** [for x in self: if f(x): continue
     return False] and then [return True]: the loop of [empty].
    It is also [for x in self: if not f(x): return False], the loop of
    [all]. *)
Fixpoint loop_all (c : closure) (h : heap) (l : list val) : result bool :=
  match l with
  | [] => Ok true
  | x :: l' =>
      let (c', r) := call c h x in
      y <- r ;;
      if truthy h y then loop_all c' h l' else Ok false
  end.

(** [for x in self: if f(x): return True] and then [return False] *)
Fixpoint loop_some (c : closure) (h : heap) (l : list val) : result bool :=
  match l with
  | [] => Ok false
  | x :: l' =>
      let (c', r) := call c h x in
      y <- r ;;
      if truthy h y then Ok true else loop_some c' h l'
  end.

(** [for x in self: if f(x): return x]; past the loop the function ends
    without a [return], which gives [None]. *)
Fixpoint loop_find (c : closure) (h : heap) (l : list val) : result val :=
  match l with
  | [] => Ok VNone
  | x :: l' =>
      let (c', r) := call c h x in
      y <- r ;;
      if truthy h y then Ok x else loop_find c' h l'
  end.

(** The items of the [List] at [self]. *)
Definition items_of (h : heap) (self : addr) : result (list val) :=
  match h !! self with
  | Some (OList l _) => Ok l
  | _ => Raise TypeError
  end.

(** ** class List *)
Module List.

(** [List(iterable)] *)
Definition new (it : result (list val)) (h : heap) : outcome :=
  l <- it ;;
  let (inst, h') := alloc (OList l None) h in
  Ok (VRef inst, h').

(** [_moka_assign(self, items)]: [self[:] = items] draws every item from
    [items] before it writes any, then [return self]. *)
Definition _moka_assign (self : addr) (items : result (list val)) (h : heap)
  : outcome :=
  l <- items ;;
  match h !! self with
  | Some (OList _ lv) => Ok (VRef self, <[self := OList l lv]> h)
  | _ => Raise TypeError
  end.

(** [_f(self, f, *args, **kwargs)]; without [f] the call itself fails. *)
Definition _f (sargs : star_args) (kw : kwargs) : result closure :=
  match sargs with
  | None => Raise TypeError
  | Some (f, args) =>
      if is_nil args && is_nil kw then Ok (Lambda1 f)
      else if negb (Blank_in args) then Ok (LambdaArgs f args kw)
      else (pos <- index_Blank args ;; Ok (Tmp f args pos kw))
  end.

Definition clone (self : addr) (h : heap) : outcome :=
  new (items_of h self) h.

Definition tee (self : addr) (sargs : star_args) (kw : kwargs) (h : heap)
  : outcome :=
  f <- _f sargs kw ;;
  v <- snd (call f h (VRef self)) ;;
  match h !! self with
  | Some (OList l _) => Ok (VRef self, <[self := OList l (Some v)]> h)
  | _ => Raise TypeError
  end.

Definition do (self : addr) (sargs : star_args) (kw : kwargs) (h : heap)
  : outcome :=
  f <- _f sargs kw ;;
  v <- snd (call f h (VRef self)) ;;
  Ok (v, h).

Definition map (self : addr) (sargs : star_args) (kw : kwargs) (h : heap)
  : outcome :=
  f <- _f sargs kw ;;
  l <- items_of h self ;;
  _moka_assign self (gen_map f h l) h.

Definition keep (self : addr) (sargs : star_args) (kw : kwargs) (h : heap)
  : outcome :=
  f <- _f sargs kw ;;
  l <- items_of h self ;;
  _moka_assign self (gen_filter true f h l) h.

Definition rem (self : addr) (sargs : star_args) (kw : kwargs) (h : heap)
  : outcome :=
  f <- _f sargs kw ;;
  l <- items_of h self ;;
  _moka_assign self (gen_filter false f h l) h.

Definition empty (self : addr) (sargs : star_args) (kw : kwargs) (h : heap)
  : outcome :=
  if no_args sargs && is_nil kw then
    Ok (VBool (negb (truthy h (VRef self))), h)
  else
    f <- _f sargs kw ;;
    l <- items_of h self ;;
    b <- loop_all f h l ;;
    Ok (VBool b, h).

(** [count]: with arguments, the call that ends the chain is [count()]
    on the filtered clone, which takes the first branch: [len]. *)
Definition count (self : addr) (sargs : star_args) (kw : kwargs) (h : heap)
  : outcome :=
  let count0 (self : addr) (h : heap) : outcome :=
    n <- len h (VRef self) ;; Ok (VInt n, h) in
  if no_args sargs && is_nil kw then count0 self h
  else
    r <- clone self h ;;
    r <- send (fst r) (fun a => keep a sargs kw) (snd r) ;;
    send (fst r) count0 (snd r).

Definition find (self : addr) (sargs : star_args) (kw : kwargs) (h : heap)
  : outcome :=
  f <- _f sargs kw ;;
  l <- items_of h self ;;
  x <- loop_find f h l ;;
  Ok (x, h).

Definition some (self : addr) (sargs : star_args) (kw : kwargs) (h : heap)
  : outcome :=
  f <- _f sargs kw ;;
  l <- items_of h self ;;
  b <- loop_some f h l ;;
  Ok (VBool b, h).

Definition all (self : addr) (sargs : star_args) (kw : kwargs) (h : heap)
  : outcome :=
  f <- _f sargs kw ;;
  l <- items_of h self ;;
  b <- loop_all f h l ;;
  Ok (VBool b, h).

Definition has : method := some.

Section Proxy.

Variable list_sort : builtin.

(** [_proxy(method_name)] makes [wrap] and stores it in the class under
    [method_name]; this is [wrap]. *)
Definition _proxy (method_name : string) (self : addr) (args : list val)
    (kw : kwargs) (h : heap) : outcome :=
  l <- items_of h self ;;
  let (inst, h1) := alloc (OList l None) h in
  m <- getattr_list list_sort method_name ;;
  l' <- m h1 l args kw ;;
  Ok (VRef inst, <[inst := OList l' None]> h1).

(** [List(['append', 'extend', 'sort', 'reverse', 'insert']).map(List._proxy)] *)
Definition proxied : list string :=
  ["append"; "extend"; "sort"; "reverse"; "insert"]%string.

Definition append := _proxy "append".
Definition extend := _proxy "extend".
Definition sort := _proxy "sort".
Definition reverse := _proxy "reverse".
Definition insert := _proxy "insert".

End Proxy.

(** [invoke], [attr] and [item] are [map] over a lookup on each item.
    What an item answers to [getattr(x, name)(...)], to [getattr(x, attr)]
    and to [x[item]] is Python's business: the three are taken as they
    come. *)
Section Lookups.

Variable call_method : heap -> val -> string -> list val -> kwargs -> result val.
Variable getattr : heap -> val -> string -> result val.
Variable getitem : heap -> val -> val -> result val.



Definition item (self : addr) (item : val) (h : heap) : outcome :=
  map self (Some (lambda1 (fun h x => getitem h x item), [])) [] h.

End Lookups.

End List.

(** ** Python's dict: keys, insertion, construction *)

(** [hash(v)] succeeds: a [List] and a [Dict] inherit the refusal of
    [list] and [dict], and a tuple is hashed through what it holds. *)
Fixpoint hashable (v : val) : bool :=
  match v with
  | VRef _ => false
  | VPair x y => hashable x && hashable y
  | _ => true
  end.

Definition as_int (v : val) : option Z :=
  match v with
  | VBool b => Some (if b then 1 else 0)
  | VInt z => Some z
  | _ => None
  end.

(** When two keys are the same key: [True] and [1] are. Containers are
    never keys, so only their identity is looked at here. *)
Fixpoint key_eq (v w : val) : bool :=
  match v, w with
  | VNone, VNone => true
  | VBlank, VBlank => true
  | VStr s, VStr t => String.eqb s t
  | VPair x y, VPair x' y' => key_eq x x' && key_eq y y'
  | VRef a, VRef b => Nat.eqb a b
  | _, _ =>
      match as_int v, as_int w with
      | Some i, Some j => i =? j
      | _, _ => false
      end
  end.

Abbreviation entries := (list (val * val)).

(** [d[k] = v] on the entries: a key already there keeps its place (and
    its first spelling), a new one goes to the end. *)
Fixpoint assoc_set (k v : val) (es : entries) : entries :=
  match es with
  | [] => [(k, v)]
  | (k', v') :: es' =>
      if key_eq k' k then (k', v) :: es'
      else (k', v') :: assoc_set k v es'
  end.

Definition setitem (k v : val) (es : entries) : result entries :=
  if hashable k then Ok (assoc_set k v es) else Raise TypeError.

(** An item of a sequence of pairs: anything that yields two values. *)
Definition as_pair (h : heap) (item : val) : result (val * val) :=
  l <- iterate h item ;;
  match l with
  | [k; v] => Ok (k, v)
  | _ => Raise ValueError
  end.

Fixpoint update_pairs (ps : list (val * val)) (es : entries) : result entries :=
  match ps with
  | [] => Ok es
  | (k, v) :: ps' =>
      es' <- setitem k v es ;;
      update_pairs ps' es'
  end.

Fixpoint update_items (h : heap) (items : list val) (es : entries)
  : result entries :=
  match items with
  | [] => Ok es
  | it :: items' =>
      p <- as_pair h it ;;
      es' <- setitem (fst p) (snd p) es ;;
      update_items h items' es'
  end.

(** A generator expression over the entries of a dict, not yet started.
    Each entry is one turn of its loop: the callback is called, and the
    turn yields an item, yields nothing (the [if] of the expression was
    false), or raises. Callbacks do not write to the store, so a turn is
    given by its result; whoever consumes the generator looks at the
    turns in order, and the turns after the one it stops at never run. *)
Definition generator := list (result (option val)).

(** [dict.update(d, g)] for a generator [g]: the item a turn yields is
    unpacked and stored before the next turn runs. *)
Fixpoint update_gen (h : heap) (g : generator) (es : entries)
  : result entries :=
  match g with
  | [] => Ok es
  | turn :: g' =>
      o <- turn ;;
      match o with
      | None => update_gen h g' es
      | Some it =>
          p <- as_pair h it ;;
          es' <- setitem (fst p) (snd p) es ;;
          update_gen h g' es'
      end
  end.

(** The positional argument of [dict(...)] and of [dict.update(...)]:
    none, a mapping, the items of an iterable of pairs, or a generator of
    pairs. *)
Inductive dict_arg : Type :=
| NoArg
| Mapping (es : entries)
| Items (items : result (list val))
| Gen (g : generator).

(** What [dict.update(d, arg, **kwargs)] leaves in [d]. *)
Definition dict_update (h : heap) (arg : dict_arg) (kw : kwargs)
    (es : entries) : result entries :=
  es1 <- match arg with
         | NoArg => Ok es
         | Mapping ps => update_pairs ps es
         | Items items => its <- items ;; update_items h its es
         | Gen g => update_gen h g es
         end ;;
  update_pairs ((fun p => (VStr (fst p), snd p)) <$> kw) es1.

(** How a value given to [dict(...)] or [dict.update(...)] is read. *)
Definition dict_arg_of (h : heap) (args : list val) : result dict_arg :=
  match args with
  | [] => Ok NoArg
  | [VRef a] =>
      match h !! a with
      | Some (ODict es _ _) => Ok (Mapping es)
      | _ => Ok (Items (iterate h (VRef a)))
      end
  | [v] => Ok (Items (iterate h v))
  | _ => Raise TypeError
  end.

Definition dict_builtin :=
  heap -> entries -> list val -> kwargs -> result entries.

Definition dict_update_method : dict_builtin := fun h es args kw =>
  arg <- dict_arg_of h args ;;
  dict_update h arg kw es.

Definition dict_clear : dict_builtin := fun _ _ args kw =>
  match args, kw with
  | [], [] => Ok []
  | _, _ => Raise TypeError
  end.

(** [getattr(dict, method_name)], for the names [Dict] wraps. *)
Definition getattr_dict (method_name : string) : result dict_builtin :=
  if String.eqb method_name "update" then Ok dict_update_method
  else if String.eqb method_name "clear" then Ok dict_clear
  else Raise AttributeError.

(** [dict.fromkeys(iterable, value=None)] *)
Definition dict_fromkeys (h : heap) (args : list val) (kw : kwargs)
  : result entries :=
  match args, kw with
  | [it], [] =>
      ks <- iterate h it ;;
      update_pairs ((fun k => (k, VNone)) <$> ks) []
  | [it; v], [] =>
      ks <- iterate h it ;;
      update_pairs ((fun k => (k, v)) <$> ks) []
  | _, _ => Raise TypeError
  end.

(** The entries of the [Dict] at [self]. *)
Definition entries_of (h : heap) (self : addr) : result entries :=
  match h !! self with
  | Some (ODict es _ _) => Ok es
  | _ => Raise TypeError
  end.

(** ** Loops and generator expressions over [self.items()] *)

Definition callable2 := heap -> val -> val -> result val.

(** [f(x, y) for x, y in self.items()] *)
Fixpoint gen_map2 (f : callable2) (h : heap) (es : entries) : generator :=
  match es with
  | [] => []
  | (x, y) :: es' =>
      (z <- f h x y ;; Ok (Some z)) :: gen_map2 f h es'
  end.

(** [(x, y) for x, y in self.items() if f(x, y)] when [sense] is [true],
    [... if not f(x, y)] when it is [false]. *)
Fixpoint gen_filter2 (sense : bool) (f : callable2) (h : heap) (es : entries)
  : generator :=
  match es with
  | [] => []
  | (x, y) :: es' =>
      (z <- f h x y ;;
       Ok (if bool_decide (truthy h z = sense) then Some (VPair x y)
           else None))
      :: gen_filter2 sense f h es'
  end.

(** [for x, y in self.items(): if not f(x, y): return False] *)
Fixpoint loop_all2 (f : callable2) (h : heap) (es : entries) : result bool :=
  match es with
  | [] => Ok true
  | (x, y) :: es' =>
      z <- f h x y ;;
      if truthy h z then loop_all2 f h es' else Ok false
  end.

(** [for x, y in self.items(): if f(x, y): return True] *)
Fixpoint loop_some2 (f : callable2) (h : heap) (es : entries) : result bool :=
  match es with
  | [] => Ok false
  | (x, y) :: es' =>
      z <- f h x y ;;
      if truthy h z then Ok true else loop_some2 f h es'
  end.

(** ** class Dict *)
Module Dict.

(** [Dict(arg, **kwargs)]: a new instance, on which [__init__] sets
    [_moka_save = False] and then lets [dict.__init__] fill the entries. *)
Definition __init__ (arg : dict_arg) (kw : kwargs) (h : heap) : outcome :=
  let moka_save := false in
  es <- dict_update h arg kw [] ;;
  let (inst, h') := alloc (ODict es moka_save None) h in
  Ok (VRef inst, h').

(** [Dict(...)] as a caller writes it, on values. *)
Definition new (args : list val) (kw : kwargs) (h : heap) : outcome :=
  arg <- dict_arg_of h args ;;
  __init__ arg kw h.

Definition _f (sargs : star_args) (kw : kwargs) : result callable2 :=
  match sargs with
  | None => Raise TypeError
  | Some (f, args) => Ok (fun h x y => f h (x :: y :: args) kw)
  end.

(** [_moka_assign(self, items)]: under [_moka_save] the body is [pass]
    (the generator [items] is never started and [None] is returned),
    otherwise [Dict(items)], which draws the items one by one. *)
Definition _moka_assign (self : addr) (items : generator) (h : heap)
  : outcome :=
  match h !! self with
  | Some (ODict _ moka_save _) =>
      if moka_save then Ok (VNone, h)
      else __init__ (Gen items) [] h
  | _ => Raise AttributeError
  end.

(** [Dict(self)] *)
Definition Dict_self (self : addr) (h : heap) : outcome :=
  es <- entries_of h self ;;
  __init__ (Mapping es) [] h.

Definition clone (self : addr) (h : heap) : outcome :=
  Dict_self self h.

Definition map (self : addr) (sargs : star_args) (kw : kwargs) (h : heap)
  : outcome :=
  f <- _f sargs kw ;;
  es <- entries_of h self ;;
  _moka_assign self (gen_map2 f h es) h.

Definition keep (self : addr) (sargs : star_args) (kw : kwargs) (h : heap)
  : outcome :=
  f <- _f sargs kw ;;
  es <- entries_of h self ;;
  _moka_assign self (gen_filter2 true f h es) h.

Definition rem (self : addr) (sargs : star_args) (kw : kwargs) (h : heap)
  : outcome :=
  f <- _f sargs kw ;;
  es <- entries_of h self ;;
  _moka_assign self (gen_filter2 false f h es) h.

Definition all (self : addr) (sargs : star_args) (kw : kwargs) (h : heap)
  : outcome :=
  f <- _f sargs kw ;;
  es <- entries_of h self ;;
  b <- loop_all2 f h es ;;
  Ok (VBool b, h).

Definition some (self : addr) (sargs : star_args) (kw : kwargs) (h : heap)
  : outcome :=
  f <- _f sargs kw ;;
  es <- entries_of h self ;;
  b <- loop_some2 f h es ;;
  Ok (VBool b, h).

Definition count (self : addr) (sargs : star_args) (kw : kwargs) (h : heap)
  : outcome :=
  if no_args sargs && is_nil kw then
    n <- len h (VRef self) ;; Ok (VInt n, h)
  else
    r <- Dict_self self h ;;
    r <- send (fst r) (fun a => keep a sargs kw) (snd r) ;;
    n <- len (snd r) (fst r) ;;
    Ok (VInt n, snd r).

(** [do(self, function, *args, **kwargs)] *)
Definition do (self : addr) (sargs : star_args) (kw : kwargs) (h : heap)
  : outcome :=
  match sargs with
  | None => Raise TypeError
  | Some (function, args) =>
      v <- function h (VRef self :: args) kw ;;
      match h !! self with
      | Some (ODict es moka_save _) =>
          Ok (VRef self, <[self := ODict es moka_save (Some v)]> h)
      | _ => Raise TypeError
      end
  end.

Definition copy (self : addr) (h : heap) : outcome :=
  Dict_self self h.

Definition fromkeys (args : list val) (kw : kwargs) (h : heap) : outcome :=
  es <- dict_fromkeys h args kw ;;
  __init__ (Mapping es) [] h.

Definition empty (self : addr) (sargs : star_args) (kw : kwargs) (h : heap)
  : outcome :=
  if no_args sargs && is_nil kw then
    n <- len h (VRef self) ;; Ok (VBool (n =? 0), h)
  else
    r <- Dict_self self h ;;
    r <- send (fst r) (fun a => rem a sargs kw) (snd r) ;;
    n <- len (snd r) (fst r) ;;
    Ok (VBool (n =? 0), snd r).

(** [_proxy(method_name)] stores this [wrap] in the class. *)
Definition _proxy (method_name : string) (self : addr) (args : list val)
    (kw : kwargs) (h : heap) : outcome :=
  r <- Dict_self self h ;;
  m <- getattr_dict method_name ;;
  match fst r with
  | VRef inst =>
      match snd r !! inst with
      | Some (ODict es0 moka_save lv) =>
          es' <- m (snd r) es0 args kw ;;
          Ok (VRef inst, <[inst := ODict es' moka_save lv]> (snd r))
      | _ => Raise TypeError
      end
  | _ => Raise TypeError
  end.

(** [List(['update', 'clear']).map(Dict._proxy)] *)
Definition proxied : list string := ["update"; "clear"]%string.

Definition update := _proxy "update".
Definition clear := _proxy "clear".

End Dict.

(** ** Vocabulary of the statements *)

(** What the callable [List._f(f, *args, **kwargs)] returns on [x]. *)
Definition bound (f : pyfun) (args : list val) (kw : kwargs) (h : heap)
    (x : val) : result val :=
  c <- List._f (Some (f, args)) kw ;;
  snd (call c h x).

(** [p(x)] returns, and what it returns is true. *)
Definition holds (p : val -> result val) (h : heap) (x : val) : bool :=
  match p x with
  | Ok y => truthy h y
  | Raise _ => false
  end.

(** [p(x)] returns, and what it returns is false. *)
Definition fails (p : val -> result val) (h : heap) (x : val) : bool :=
  match p x with
  | Ok y => negb (truthy h y)
  | Raise _ => false
  end.

(** Who stays in a filter: under [sense = true] those on which the callable
    holds, under [sense = false] those on which it fails. *)
Definition verdict (p : val -> result val) (h : heap) (sense : bool) (x : val)
  : bool :=
  if sense then holds p h x else fails p h x.

(** The callable [c] returns [p x] on every [x]. *)
Definition agrees (h : heap) (p : val -> result val) (c : closure) : Prop :=
  forall x, snd (call c h x) = p x.

(** [not pred(...)], whatever arguments [pred] is given *)
Definition not_ (pred : pyfun) : pyfun := fun h args kw =>
  y <- pred h args kw ;;
  Ok (VBool (negb (truthy h y))).

(** The verdict that [if f(x)] reaches in the store [h], for the callable
    [List._f] makes of [f], [args] and [kw]. *)
Definition judge (f : pyfun) (args : list val) (kw : kwargs) (h : heap)
    (x : val) : result bool :=
  y <- bound f args kw h x ;;
  Ok (truthy h y).

(** [p(k, v)] returns, and what it returns is true (respectively false),
    for an entry [(k, v)]. *)
Definition holds2 (p : val -> val -> result val) (h : heap) (e : val * val)
  : bool :=
  match p (fst e) (snd e) with
  | Ok z => truthy h z
  | Raise _ => false
  end.

Definition fails2 (p : val -> val -> result val) (h : heap) (e : val * val)
  : bool :=
  match p (fst e) (snd e) with
  | Ok z => negb (truthy h z)
  | Raise _ => false
  end.

(** The tuple [(k, v)] that [items()] yields for an entry. *)
Definition pair_val (e : val * val) : val := VPair (fst e) (snd e).

(** ** What every dict satisfies: hashable keys, no key twice *)

Fixpoint keys_wf (es : entries) : bool :=
  match es with
  | [] => true
  | (k, _) :: es' =>
      hashable k
      && forallb (fun e => negb (key_eq k (fst e))) es'
      && keys_wf es'
  end.

(** A [Dict] as the methods of this module leave it: a dict, with
    [_moka_save] still [False]. *)
Definition obj_wf (o : obj) : Prop :=
  match o with
  | OList _ _ => True
  | ODict es moka_save _ => keys_wf es = true /\ moka_save = false
  end.

Definition heap_wf (h : heap) : Prop := Forall obj_wf h.

(** ** The stores a program can reach through the public methods *)

Definition List_methods : list method :=
  [List.tee; List.do; List.map; List.keep; List.rem; List.empty;
   List.count; List.find; List.some; List.all; List.has].

Definition Dict_methods : list method :=
  [Dict.map; Dict.keep; Dict.rem; Dict.all; Dict.some; Dict.count;
   Dict.do; Dict.empty].

(** One call of a public method, constructors included, or one in-place
    method inherited from [list] or [dict], which changes the contents
    of an object and none of its attributes. *)
Inductive step (list_sort : builtin) : heap -> heap -> Prop :=
| step_List_new it h v h' :
    List.new it h = Ok (v, h') -> step list_sort h h'
| step_List_method m self sargs kw h v h' :
    In m List_methods ->
    m self sargs kw h = Ok (v, h') -> step list_sort h h'
| step_List_clone self h v h' :
    List.clone self h = Ok (v, h') -> step list_sort h h'
| step_List_proxy name self args kw h v h' :
    In name List.proxied ->
    List._proxy list_sort name self args kw h = Ok (v, h') ->
    step list_sort h h'
| step_list_inherited a l lv l' h :
    h !! a = Some (OList l lv) ->
    step list_sort h (<[a := OList l' lv]> h)
| step_Dict_new args kw h v h' :
    Dict.new args kw h = Ok (v, h') -> step list_sort h h'
| step_Dict_method m self sargs kw h v h' :
    In m Dict_methods ->
    m self sargs kw h = Ok (v, h') -> step list_sort h h'
| step_Dict_clone self h v h' :
    Dict.clone self h = Ok (v, h') -> step list_sort h h'
| step_Dict_copy self h v h' :
    Dict.copy self h = Ok (v, h') -> step list_sort h h'
| step_Dict_fromkeys args kw h v h' :
    Dict.fromkeys args kw h = Ok (v, h') -> step list_sort h h'
| step_Dict_proxy name self args kw h v h' :
    In name Dict.proxied ->
    Dict._proxy name self args kw h = Ok (v, h') -> step list_sort h h'
| step_dict_inherited a es moka_save lv es' h :
    h !! a = Some (ODict es moka_save lv) ->
    keys_wf es' = true ->
    step list_sort h (<[a := ODict es' moka_save lv]> h).

Inductive reachable (list_sort : builtin) : heap -> Prop :=
| reachable_start : reachable list_sort []
| reachable_step h h' :
    reachable list_sort h -> step list_sort h h' -> reachable list_sort h'.

(** ** Reading a dict *)

(** [d.get(k)]: the value stored under the key [k], if there is one. *)
Fixpoint dict_get (k : val) (es : entries) : option val :=
  match es with
  | [] => None
  | (k', v) :: es' => if key_eq k' k then Some v else dict_get k es'
  end.

(** One spelling for every key: [True] is written [1], [False] is
    written [0]. Two values are the same key when their spellings are
    equal. *)
Fixpoint key_norm (v : val) : val :=
  match v with
  | VBool b => VInt (if b then 1 else 0)
  | VPair x y => VPair (key_norm x) (key_norm y)
  | _ => v
  end.

(** A value [for ... in] refuses: neither a string, a tuple nor a
    container. *)
Definition scalar (v : val) : bool :=
  match v with
  | VNone | VBool _ | VInt _ | VBlank => true
  | _ => false
  end.

(** ** An ordering for the examples

    [list.sort()] on a list of integers. It stands for [list_sort] only
    where the list holds integers and no argument is given; elsewhere it
    says nothing of what Python does. *)
Fixpoint insert_int (z : Z) (l : list Z) : list Z :=
  match l with
  | [] => [z]
  | y :: l' => if z <? y then z :: y :: l' else y :: insert_int z l'
  end.

Fixpoint ints_of (l : list val) : result (list Z) :=
  match l with
  | [] => Ok []
  | VInt z :: l' => zs <- ints_of l' ;; Ok (z :: zs)
  | _ :: _ => Raise TypeError
  end.

Definition sort_ints : builtin := fun _ l args kw =>
  match args, kw with
  | [], [] => zs <- ints_of l ;; Ok (VInt <$> foldr insert_int [] zs)
  | _, _ => Raise TypeError
  end.

(** ** Callbacks of the examples *)

(** [lambda a, b: a + b] on integers *)
Definition add : pyfun := fun _ args kw =>
  match args, kw with
  | [VInt a; VInt b], [] => Ok (VInt (a + b))
  | _, _ => Raise TypeError
  end.

(** [lambda a, b: a // b] on integers *)
Definition divide : pyfun := fun _ args kw =>
  match args, kw with
  | [VInt a; VInt b], [] =>
      if b =? 0 then Raise ZeroDivisionError else Ok (VInt (a / b))
  | _, _ => Raise TypeError
  end.

(** [lambda x: x + 1] *)
Definition incr : pyfun := fun _ args kw =>
  match args, kw with
  | [VInt a], [] => Ok (VInt (a + 1))
  | _, _ => Raise TypeError
  end.

(** [lambda x: x > 0] *)
Definition positive : pyfun := fun _ args kw =>
  match args, kw with
  | [VInt a], [] => Ok (VBool (0 <? a))
  | _, _ => Raise TypeError
  end.

(** [lambda k, v: v > 0] *)
Definition positive_value : pyfun := fun _ args kw =>
  match args, kw with
  | [_; VInt a], [] => Ok (VBool (0 <? a))
  | _, _ => Raise TypeError
  end.

(** [len] *)
Definition len_fn : pyfun := fun h args kw =>
  match args, kw with
  | [v], [] => n <- len h v ;; Ok (VInt n)
  | _, _ => Raise TypeError
  end.

(** * Properties *)

(** ** The binder *)

Lemma bind_Ok {A B} (m : result A) (k : A -> result B) (y : B) :
  bind m k = Ok y <-> exists x, m = Ok x /\ k x = Ok y.
Proof.
  destruct m as [x|e]; simpl; split.
  - eauto.
  - intros (x' & [= ->] & Hk). exact Hk.
  - discriminate.
  - intros (x' & [=] & _).
Qed.

Lemma index_Blank_split (pre post : list val) :
  Blank_in pre = false ->
  index_Blank (pre ++ VBlank :: post) = Ok (length pre).
Proof.
  induction pre as [|v pre IH]; simpl; [reflexivity|].
  intros H. apply orb_false_iff in H as [Hv Hpre].
  rewrite Hv, (IH Hpre). reflexivity.
Qed.

Lemma Blank_in_middle (pre post : list val) :
  Blank_in (pre ++ VBlank :: post) = true.
Proof.
  unfold Blank_in. rewrite existsb_app. simpl.
  apply orb_true_iff. right. reflexivity.
Qed.

Lemma insert_middle (pre post : list val) (x y : val) :
  <[length pre := x]> (pre ++ y :: post) = pre ++ x :: post.
Proof.
  replace (length pre) with (length pre + 0)%nat by lia.
  rewrite insert_app_r. reflexivity.
Qed.

(** A call changes nothing of what later calls return: [tmp] overwrites
    the one slot it wrote before. *)
Lemma call_again (c : closure) (h h' : heap) (x y : val) :
  snd (call (fst (call c h x)) h' y) = snd (call c h' y).
Proof.
  destruct c as [f|f args kw|f args pos kw]; simpl; try reflexivity.
  rewrite list_insert_insert_eq. reflexivity.
Qed.

(** Without the placeholder among the bound arguments, [_f] returns one
    of its two lambdas. *)
Lemma _f_plain (f : pyfun) (args : list val) (kw : kwargs) :
  Blank_in args = false ->
  List._f (Some (f, args)) kw
  = Ok (if is_nil args && is_nil kw then Lambda1 f
        else LambdaArgs f args kw).
Proof.
  intros Hno. unfold List._f.
  destruct (is_nil args && is_nil kw); [reflexivity|].
  rewrite Hno. reflexivity.
Qed.

(** C6. When none of the bound positional arguments is the placeholder
    (no bound argument at all included), the callable made by the binder
    returns, on a runtime value [x], [f(x, *args, **kwargs)]: [x] comes
    first, the bound arguments after it. The callable keeps no trace of
    the call. *)
Theorem binder_prepends (f : pyfun) (args : list val) (kw : kwargs) :
  Blank_in args = false ->
  exists c,
    List._f (Some (f, args)) kw = Ok c /\
    forall h x, call c h x = (c, f h (x :: args) kw).
Proof.
  intros Hno. rewrite (_f_plain f args kw Hno).
  eexists. split; [reflexivity|]. intros h x.
  destruct (is_nil args && is_nil kw) eqn:Hnil; [|reflexivity].
  apply andb_true_iff in Hnil as [Ha Hk].
  destruct args; [|discriminate]. destruct kw; [|discriminate].
  reflexivity.
Qed.

(** [bind(add, 10)(5)] is [add(5, 10)], which is 15. *)
Lemma binder_prepends_add :
  Blank_in [VInt 10] = false /\
  exists c,
    List._f (Some (add, [VInt 10])) [] = Ok c /\
    forall h x, call c h x = (c, add h [x; VInt 10] []).
Proof.
  split; [reflexivity|].
  apply (binder_prepends add [VInt 10] []). reflexivity.
Defined.

(** C5, as the code has it. When the bound positional arguments hold the
    placeholder exactly once, the callable made by the binder returns, on
    a runtime value [x], [f] of the bound arguments with [x] in the place
    of the placeholder, and it does so again on every later call. In
    particular [bind(divide, 10, PLACEHOLDER)(2)] is [divide(10, 2)]. *)
Theorem binder_substitutes (f : pyfun) (pre post : list val) (kw : kwargs) :
  Blank_in pre = false ->
  Blank_in post = false ->
  exists c,
    List._f (Some (f, pre ++ VBlank :: post)) kw = Ok c /\
    forall h x,
      snd (call c h x) = f h (pre ++ x :: post) kw /\
      forall h' y,
        snd (call (fst (call c h x)) h' y) = f h' (pre ++ y :: post) kw.
Proof.
  intros Hpre Hpost. unfold List._f.
  assert (Hnil : is_nil (pre ++ VBlank :: post) && is_nil kw = false).
  { destruct pre; reflexivity. }
  rewrite Hnil, Blank_in_middle, (index_Blank_split pre post Hpre). simpl.
  eexists. split; [reflexivity|].
  assert (Hcall : forall h x,
    snd (call (Tmp f (pre ++ VBlank :: post) (length pre) kw) h x)
    = f h (pre ++ x :: post) kw).
  { intros h x. simpl. rewrite insert_middle. reflexivity. }
  intros h x. split; [apply Hcall|].
  intros h' y. rewrite call_again. apply Hcall.
Qed.

(** [bind(divide, 10, PLACEHOLDER)(2)] is [divide(10, 2)]. *)
Lemma binder_substitutes_divide :
  Blank_in [VInt 10] = false /\ Blank_in [] = false /\
  exists c,
    List._f (Some (divide, [VInt 10; VBlank])) [] = Ok c /\
    forall h x,
      snd (call c h x) = divide h [VInt 10; x] [] /\
      forall h' y,
        snd (call (fst (call c h x)) h' y) = divide h' [VInt 10; y] [].
Proof.
  split; [reflexivity|]. split; [reflexivity|].
  apply (binder_substitutes divide [VInt 10] [] []); reflexivity.
Defined.

(** C5, as the specification words its example: [bind(divide, 10, PLACEHOLDER)(2)]
    is 5, and [divide(2, 10)] is 0. *)
Lemma binder_divide_is_not_swapped :
  exists c,
    List._f (Some (divide, [VInt 10; VBlank])) [] = Ok c /\
    snd (call c [] (VInt 2)) = Ok (VInt 5) /\
    divide [] [VInt 2; VInt 10] [] = Ok (VInt 0) /\
    snd (call c [] (VInt 2)) <> divide [] [VInt 2; VInt 10] [].
Proof.
  eexists. split; [reflexivity|].
  split; [reflexivity|]. split; [reflexivity|].
  discriminate.
Qed.

(** With a callback, [_f] always makes a callable: the search for the
    placeholder is run only where it succeeds. *)
Lemma index_Blank_total (args : list val) :
  Blank_in args = true -> exists pos, index_Blank args = Ok pos.
Proof.
  induction args as [|v args IH]; simpl; [discriminate|].
  destruct (is_Blank v); simpl; [eauto|].
  intros H. destruct (IH H) as [pos ->]. simpl. eauto.
Qed.

Lemma _f_total (f : pyfun) (args : list val) (kw : kwargs) :
  exists c, List._f (Some (f, args)) kw = Ok c.
Proof.
  unfold List._f. destruct (is_nil args && is_nil kw); [eauto|].
  destruct (Blank_in args) eqn:HB; simpl; [|eauto].
  destruct (index_Blank_total args HB) as [pos ->]. simpl. eauto.
Qed.

Lemma bound_call (f : pyfun) (args : list val) (kw : kwargs) (c : closure) :
  List._f (Some (f, args)) kw = Ok c ->
  forall h x, snd (call c h x) = bound f args kw h x.
Proof. intros Hc h x. unfold bound. rewrite Hc. reflexivity. Qed.

(** ** The loops over a list, read through what the callable returns *)

Section Loops.

Variable h : heap.
Variable p : val -> result val.

Lemma agrees_call (c : closure) (x : val) :
  agrees h p c ->
  exists c', call c h x = (c', p x) /\ agrees h p c'.
Proof.
  intros Hc. exists (fst (call c h x)). split.
  - rewrite <- (Hc x). destruct (call c h x); reflexivity.
  - intros y. rewrite call_again. apply Hc.
Qed.

Lemma gen_map_Forall2 (l ys : list val) :
  Forall2 (fun x y => p x = Ok y) l ys ->
  forall c, agrees h p c -> gen_map c h l = Ok ys.
Proof.
  induction 1 as [|x y l ys Hx _ IH]; intros c Hc; simpl; [reflexivity|].
  destruct (agrees_call c x Hc) as (c' & -> & Hc').
  rewrite Hx. simpl. rewrite (IH c' Hc'). reflexivity.
Qed.

Lemma gen_map_Ok (l ys : list val) :
  forall c, agrees h p c -> gen_map c h l = Ok ys ->
  Forall2 (fun x y => p x = Ok y) l ys.
Proof.
  revert ys. induction l as [|x l IH]; intros ys c Hc; simpl.
  - intros [= <-]. constructor.
  - destruct (agrees_call c x Hc) as (c' & -> & Hc').
    destruct (p x) as [y|e] eqn:Hx; simpl; [|discriminate].
    destruct (gen_map c' h l) as [zs|e] eqn:Hl; simpl; [|discriminate].
    intros [= <-]. constructor; [exact Hx|]. eapply IH; eauto.
Qed.

Lemma gen_filter_verdict (sense : bool) (l : list val) :
  Forall (fun x => exists y, p x = Ok y) l ->
  forall c, agrees h p c ->
  gen_filter sense c h l = Ok (filter (fun x => verdict p h sense x = true) l).
Proof.
  induction 1 as [|x l [y Hx] _ IH]; intros c Hc; simpl; [reflexivity|].
  destruct (agrees_call c x Hc) as (c' & -> & Hc').
  rewrite Hx. simpl. rewrite (IH c' Hc'). simpl. f_equal.
  rewrite filter_cons.
  assert (Hv : verdict p h sense x = bool_decide (truthy h y = sense)).
  { unfold verdict, holds, fails. rewrite Hx.
    destruct sense, (truthy h y); reflexivity. }
  rewrite Hv.
  destruct (decide (bool_decide (truthy h y = sense) = true)) as [E|E].
  - rewrite E. reflexivity.
  - apply not_true_is_false in E. rewrite E. reflexivity.
Qed.

Lemma gen_filter_Ok (sense : bool) (l xs : list val) :
  forall c, agrees h p c -> gen_filter sense c h l = Ok xs ->
  Forall (fun x => exists y, p x = Ok y) l.
Proof.
  revert xs. induction l as [|x l IH]; intros xs c Hc; simpl.
  - constructor.
  - destruct (agrees_call c x Hc) as (c' & -> & Hc').
    destruct (p x) as [y|e] eqn:Hx; simpl; [|discriminate].
    destruct (gen_filter sense c' h l) as [zs|e] eqn:Hl; simpl; [|discriminate].
    intros _. constructor; [eauto|]. eapply IH; eauto.
Qed.

Lemma loop_all_true (l : list val) :
  forall c, agrees h p c ->
  loop_all c h l = Ok true <-> Forall (fun x => holds p h x = true) l.
Proof.
  induction l as [|x l IH]; intros c Hc; simpl.
  - split; [constructor|reflexivity].
  - destruct (agrees_call c x Hc) as (c' & -> & Hc').
    specialize (IH c' Hc').
    split.
    + intros H. destruct (p x) as [y|e] eqn:Hx; simpl in H; [|discriminate].
      destruct (truthy h y) eqn:Hy; [|discriminate].
      constructor; [|apply IH, H].
      unfold holds. rewrite Hx. exact Hy.
    + intros H. inversion H as [|? ? Hx Hl]; subst.
      unfold holds in Hx. destruct (p x) as [y|e]; [|discriminate].
      simpl. rewrite Hx. apply IH, Hl.
Qed.

Lemma loop_find_first (l1 l2 : list val) (x : val) :
  Forall (fun z => fails p h z = true) l1 ->
  holds p h x = true ->
  forall c, agrees h p c -> loop_find c h (l1 ++ x :: l2) = Ok x.
Proof.
  intros H1 Hx. induction H1 as [|z l1 Hz _ IH]; intros c Hc; simpl.
  - destruct (agrees_call c x Hc) as (c' & -> & Hc').
    unfold holds in Hx. destruct (p x) as [y|e]; [|discriminate].
    simpl. rewrite Hx. reflexivity.
  - destruct (agrees_call c z Hc) as (c' & -> & Hc').
    unfold fails in Hz. destruct (p z) as [y|e]; [|discriminate].
    simpl. apply negb_true_iff in Hz. rewrite Hz. apply IH, Hc'.
Qed.

Lemma loop_find_none (l : list val) :
  Forall (fun z => fails p h z = true) l ->
  forall c, agrees h p c -> loop_find c h l = Ok VNone.
Proof.
  induction 1 as [|z l Hz _ IH]; intros c Hc; simpl; [reflexivity|].
  destruct (agrees_call c z Hc) as (c' & -> & Hc').
  unfold fails in Hz. destruct (p z) as [y|e]; [|discriminate].
  simpl. apply negb_true_iff in Hz. rewrite Hz. apply IH, Hc'.
Qed.

End Loops.

(** ** List: the transforms write into the receiver *)

Lemma items_of_lookup (h : heap) (self : addr) (l : list val) lv :
  h !! self = Some (OList l lv) -> items_of h self = Ok l.
Proof. intros H. unfold items_of. rewrite H. reflexivity. Qed.

Lemma bound_agrees (f : pyfun) (args : list val) (kw : kwargs) (c : closure)
    (h : heap) :
  List._f (Some (f, args)) kw = Ok c ->
  agrees h (bound f args kw h) c.
Proof. intros Hc x. apply bound_call, Hc. Qed.

(** C1, as the code has it. [S.map(f)] writes [f(x)] for each item [x],
    in order, into the receiver [S] itself and returns [S]: the same
    object, with its other attribute untouched, and no object is added to
    the store. [keep] and [rem] do the same with the items on which the
    callable holds, respectively fails. *)
Theorem List_transforms_in_place (h : heap) (self : addr) (l ys : list val)
    (lv : option val) (f : pyfun) (args : list val) (kw : kwargs) :
  h !! self = Some (OList l lv) ->
  Forall2 (fun x y => bound f args kw h x = Ok y) l ys ->
  List.map self (Some (f, args)) kw h
    = Ok (VRef self, <[self := OList ys lv]> h) /\
  List.keep self (Some (f, args)) kw h
    = Ok (VRef self,
          <[self := OList
              (filter (fun x => holds (bound f args kw h) h x = true) l) lv]> h) /\
  List.rem self (Some (f, args)) kw h
    = Ok (VRef self,
          <[self := OList
              (filter (fun x => fails (bound f args kw h) h x = true) l) lv]> h).
Proof.
  intros Hself Hys.
  destruct (_f_total f args kw) as [c Hc].
  pose proof (bound_agrees f args kw c h Hc) as Hag.
  assert (Hret : Forall (fun x => exists y, bound f args kw h x = Ok y) l).
  { clear -Hys. induction Hys; constructor; eauto. }
  unfold List.map, List.keep, List.rem, List._moka_assign.
  rewrite Hc, (items_of_lookup h self l lv Hself). simpl.
  rewrite (gen_map_Forall2 h _ l ys Hys c Hag).
  rewrite !(gen_filter_verdict h _ _ l Hret c Hag).
  simpl. rewrite Hself. auto.
Qed.

(** On [[1, 2]] with [lambda x: x + 1]. *)
Lemma List_transforms_in_place_incr :
  [OList [VInt 1; VInt 2] None] !! 0%nat = Some (OList [VInt 1; VInt 2] None) /\
  Forall2 (fun x y => bound incr [] [] [OList [VInt 1; VInt 2] None] x = Ok y)
    [VInt 1; VInt 2] [VInt 2; VInt 3] /\
  List.map 0%nat (Some (incr, [])) [] [OList [VInt 1; VInt 2] None]
    = Ok (VRef 0%nat, [OList [VInt 2; VInt 3] None]).
Proof.
  assert (H0 : [OList [VInt 1; VInt 2] None] !! 0%nat
               = Some (OList [VInt 1; VInt 2] None)) by reflexivity.
  assert (H2 : Forall2
    (fun x y => bound incr [] [] [OList [VInt 1; VInt 2] None] x = Ok y)
    [VInt 1; VInt 2] [VInt 2; VInt 3]).
  { repeat constructor. }
  split; [exact H0|]. split; [exact H2|].
  exact (proj1 (List_transforms_in_place _ 0%nat _ _ None incr [] [] H0 H2)).
Defined.

(** C1, as the specification words it: on [S = [1, 2]], [S.map(lambda x: x + 1)]
    returns [S] itself, [S] now holds [[2, 3]], and the store holds no
    object it did not hold before. *)
Lemma List_map_changes_the_receiver :
  exists h',
    List.map 0%nat (Some (incr, [])) [] [OList [VInt 1; VInt 2] None]
      = Ok (VRef 0%nat, h') /\
    h' !! 0%nat = Some (OList [VInt 2; VInt 3] None) /\
    h' !! 0%nat <> [OList [VInt 1; VInt 2] None] !! 0%nat /\
    length h' = 1%nat.
Proof.
  eexists. split; [reflexivity|].
  split; [reflexivity|]. split; [discriminate|reflexivity].
Qed.

(** ** List: find, empty, all, count *)

(** C9. [S.find(pred)] returns the first item, in the order of [S], on
    which [pred] holds: the items before it are those on which [pred]
    fails, and the items after it are not looked at (whatever [pred] would
    do on them, raising included). When [pred] fails on every item,
    [find] returns [None] and raises nothing. The store is left as it
    was. *)
Theorem List_find_first (h : heap) (self : addr) (l : list val)
    (lv : option val) (pred : pyfun) (args : list val) (kw : kwargs) :
  h !! self = Some (OList l lv) ->
  (forall l1 x l2,
      l = l1 ++ x :: l2 ->
      Forall (fun z => fails (bound pred args kw h) h z = true) l1 ->
      holds (bound pred args kw h) h x = true ->
      List.find self (Some (pred, args)) kw h = Ok (x, h)) /\
  (Forall (fun z => fails (bound pred args kw h) h z = true) l ->
   List.find self (Some (pred, args)) kw h = Ok (VNone, h)).
Proof.
  intros Hself.
  destruct (_f_total pred args kw) as [c Hc].
  pose proof (bound_agrees pred args kw c h Hc) as Hag.
  unfold List.find. rewrite Hc, (items_of_lookup h self l lv Hself). simpl.
  split.
  - intros l1 x l2 -> H1 Hx.
    rewrite (loop_find_first h _ l1 l2 x H1 Hx c Hag). reflexivity.
  - intros Hl. rewrite (loop_find_none h _ l Hl c Hag). reflexivity.
Qed.

(** In [[-1, 3, 5]] the first positive item is 3. *)
Lemma List_find_first_positive :
  [OList [VInt (-1); VInt 3; VInt 5] None] !! 0%nat
    = Some (OList [VInt (-1); VInt 3; VInt 5] None) /\
  List.find 0%nat (Some (positive, [])) []
    [OList [VInt (-1); VInt 3; VInt 5] None]
    = Ok (VInt 3, [OList [VInt (-1); VInt 3; VInt 5] None]).
Proof.
  assert (H0 : [OList [VInt (-1); VInt 3; VInt 5] None] !! 0%nat
               = Some (OList [VInt (-1); VInt 3; VInt 5] None)) by reflexivity.
  split; [exact H0|].
  apply (proj1 (List_find_first _ 0%nat _ None positive [] [] H0)
           [VInt (-1)] (VInt 3) [VInt 5]).
  - reflexivity.
  - repeat constructor.
  - reflexivity.
Defined.

Lemma bound_not_ (pred : pyfun) (args : list val) (kw : kwargs) (h : heap)
    (x : val) :
  bound (not_ pred) args kw h x
  = (y <- bound pred args kw h x ;; Ok (VBool (negb (truthy h y)))).
Proof.
  unfold bound, List._f.
  destruct (is_nil args && is_nil kw); [reflexivity|].
  destruct (negb (Blank_in args)); [reflexivity|].
  destruct (index_Blank args); reflexivity.
Qed.

Lemma filter_nil_Forall {A} (P : A -> Prop) `{forall x, Decision (P x)}
    (l : list A) :
  filter P l = [] <-> Forall (fun x => ~ P x) l.
Proof.
  induction l as [|x l IH]; [split; [constructor|reflexivity]|].
  rewrite filter_cons. destruct (decide (P x)) as [HP|HP]; split.
  - discriminate.
  - intros HF. inversion HF; subst. contradiction.
  - intros Hnil. constructor; [exact HP|]. apply IH, Hnil.
  - intros HF. inversion HF; subst. apply IH. assumption.
Qed.

Lemma List_all_true (h : heap) (self : addr) (l : list val) (lv : option val)
    (pred : pyfun) (args : list val) (kw : kwargs) :
  h !! self = Some (OList l lv) ->
  value_of (List.all self (Some (pred, args)) kw h) = Ok (VBool true) <->
  Forall (fun x => holds (bound pred args kw h) h x = true) l.
Proof.
  intros Hself.
  destruct (_f_total pred args kw) as [c Hc].
  pose proof (bound_agrees pred args kw c h Hc) as Hag.
  unfold List.all. rewrite Hc, (items_of_lookup h self l lv Hself). simpl.
  rewrite <- (loop_all_true h _ l c Hag).
  destruct (loop_all c h l) as [[|]|e]; simpl; split; congruence.
Qed.

Lemma List_empty_pred_true (h : heap) (self : addr) (l : list val)
    (lv : option val) (pred : pyfun) (args : list val) (kw : kwargs) :
  h !! self = Some (OList l lv) ->
  List.empty self (Some (pred, args)) kw h = Ok (VBool true, h) <->
  Forall (fun x => holds (bound pred args kw h) h x = true) l.
Proof.
  intros Hself.
  destruct (_f_total pred args kw) as [c Hc].
  pose proof (bound_agrees pred args kw c h Hc) as Hag.
  unfold List.empty. cbn [no_args andb].
  rewrite Hc, (items_of_lookup h self l lv Hself). simpl.
  rewrite <- (loop_all_true h _ l c Hag).
  destruct (loop_all c h l) as [[|]|e]; simpl; split; congruence.
Qed.

Lemma List_empty_plain (h : heap) (self : addr) (l : list val)
    (lv : option val) :
  h !! self = Some (OList l lv) ->
  List.empty self None [] h = Ok (VBool (is_nil l), h).
Proof.
  intros Hself. unfold List.empty. simpl. rewrite Hself.
  destruct l; reflexivity.
Qed.

Lemma holds_not_ (pred : pyfun) (args : list val) (kw : kwargs) (h : heap)
    (x y : val) :
  bound pred args kw h x = Ok y ->
  holds (bound (not_ pred) args kw h) h x = negb (truthy h y).
Proof.
  intros Hy. unfold holds. rewrite bound_not_, Hy. reflexivity.
Qed.

Lemma keep_not_then_empty (h : heap) (self : addr) (l : list val)
    (lv : option val) (pred : pyfun) (args : list val) (kw : kwargs) :
  h !! self = Some (OList l lv) ->
  value_of (r <- List.keep self (Some (not_ pred, args)) kw h ;;
            send (fst r) (fun a => List.empty a None []) (snd r))
    = Ok (VBool true) <->
  Forall (fun x => holds (bound pred args kw h) h x = true) l.
Proof.
  intros Hself.
  pose proof (lookup_lt_Some _ _ _ Hself) as Hlt.
  destruct (_f_total (not_ pred) args kw) as [c Hc].
  pose proof (bound_agrees (not_ pred) args kw c h Hc) as Hag.
  unfold List.keep, List._moka_assign.
  rewrite Hc, (items_of_lookup h self l lv Hself). simpl.
  split.
  - destruct (gen_filter true c h l) as [xs|e] eqn:Hxs; simpl; [|discriminate].
    pose proof (gen_filter_Ok h _ true l xs c Hag Hxs) as Hret.
    rewrite (gen_filter_verdict h _ true l Hret c Hag) in Hxs.
    injection Hxs as <-.
    rewrite Hself. simpl. unfold List.empty. simpl.
    rewrite list_lookup_insert_eq by exact Hlt.
    intros Hv.
    assert (Hnil : filter
      (fun x => verdict (bound (not_ pred) args kw h) h true x = true) l = []).
    { destruct (filter _ l); [reflexivity|discriminate]. }
    apply filter_nil_Forall in Hnil.
    rewrite Forall_forall in Hret, Hnil. apply Forall_forall.
    intros x Hx. destruct (Hret x Hx) as [z Hz].
    specialize (Hnil x Hx). simpl in Hnil.
    rewrite bound_not_ in Hz.
    destruct (bound pred args kw h x) as [y|e] eqn:Hy; [|discriminate].
    rewrite (holds_not_ pred args kw h x y Hy) in Hnil.
    unfold holds. rewrite Hy. destruct (truthy h y); [reflexivity|].
    exfalso. apply Hnil. reflexivity.
  - intros Hall.
    assert (Hret : Forall
      (fun x => exists y, bound (not_ pred) args kw h x = Ok y) l).
    { eapply Forall_impl; [|exact Hall]. intros x Hx. simpl in Hx.
      unfold holds in Hx. rewrite bound_not_.
      destruct (bound pred args kw h x); [simpl; eauto|discriminate]. }
    rewrite (gen_filter_verdict h _ true l Hret c Hag). simpl.
    assert (Hnil : filter
      (fun x => holds (bound (not_ pred) args kw h) h x = true) l = []).
    { apply filter_nil_Forall. eapply Forall_impl; [|exact Hall].
      intros x Hx. simpl in *. unfold holds in Hx.
      destruct (bound pred args kw h x) as [y|e] eqn:Hy; [|discriminate].
      rewrite (holds_not_ pred args kw h x y Hy), Hx. discriminate. }
    rewrite Hnil, Hself. simpl. unfold List.empty. simpl.
    rewrite list_lookup_insert_eq by exact Hlt. reflexivity.
Qed.

(** C7. [S.empty()] is true exactly when [S] has no item; [S.empty(pred)]
    is true exactly when [pred] holds on every item of [S]; and
    [S.all(pred)] is true exactly when [S.keep(not pred).empty()] is. *)
Theorem List_empty_is_all (h : heap) (self : addr) (l : list val)
    (lv : option val) (pred : pyfun) (args : list val) (kw : kwargs) :
  h !! self = Some (OList l lv) ->
  (List.empty self None [] h = Ok (VBool true, h) <-> l = []) /\
  (exists b, List.empty self None [] h = Ok (VBool b, h)) /\
  (List.empty self (Some (pred, args)) kw h = Ok (VBool true, h) <->
   Forall (fun x => holds (bound pred args kw h) h x = true) l) /\
  (value_of (List.all self (Some (pred, args)) kw h) = Ok (VBool true) <->
   value_of (r <- List.keep self (Some (not_ pred, args)) kw h ;;
             send (fst r) (fun a => List.empty a None []) (snd r))
     = Ok (VBool true)).
Proof.
  intros Hself.
  rewrite (List_empty_plain h self l lv Hself).
  split; [|split; [|split]].
  - destruct l; simpl; split; congruence.
  - eauto.
  - apply List_empty_pred_true with lv, Hself.
  - rewrite (List_all_true h self l lv pred args kw Hself).
    rewrite (keep_not_then_empty h self l lv pred args kw Hself).
    reflexivity.
Qed.

(** On [[1, 2]] with [lambda x: x > 0]. *)
Lemma List_empty_is_all_positive :
  [OList [VInt 1; VInt 2] None] !! 0%nat = Some (OList [VInt 1; VInt 2] None) /\
  (List.empty 0%nat (Some (positive, [])) [] [OList [VInt 1; VInt 2] None]
     = Ok (VBool true, [OList [VInt 1; VInt 2] None]) <->
   Forall (fun x => holds (bound positive [] [] [OList [VInt 1; VInt 2] None])
                      [OList [VInt 1; VInt 2] None] x = true)
     [VInt 1; VInt 2]).
Proof.
  assert (H0 : [OList [VInt 1; VInt 2] None] !! 0%nat
               = Some (OList [VInt 1; VInt 2] None)) by reflexivity.
  split; [exact H0|].
  exact (proj1 (proj2 (proj2
    (List_empty_is_all _ 0%nat _ None positive [] [] H0)))).
Defined.

(** ** List: counting *)

(** The filter draws the same items in two stores where the callable
    reaches the same verdict on every item. *)
Lemma gen_filter_judge (f : pyfun) (args : list val) (kw : kwargs)
    (sense : bool) (h1 h2 : heap) (l : list val) :
  Forall (fun x => judge f args kw h1 x = judge f args kw h2 x) l ->
  forall c1 c2,
    agrees h1 (bound f args kw h1) c1 ->
    agrees h2 (bound f args kw h2) c2 ->
    gen_filter sense c1 h1 l = gen_filter sense c2 h2 l.
Proof.
  induction 1 as [|x l Hx _ IH]; intros c1 c2 H1 H2; simpl; [reflexivity|].
  destruct (agrees_call h1 _ c1 x H1) as (c1' & -> & H1').
  destruct (agrees_call h2 _ c2 x H2) as (c2' & -> & H2').
  rewrite (IH c1' c2' H1' H2').
  unfold judge in Hx.
  destruct (bound f args kw h1 x) as [y1|e1],
           (bound f args kw h2 x) as [y2|e2]; simpl in *; try congruence.
  injection Hx as ->. reflexivity.
Qed.

(** A callback that does not read the store and never returns a
    container reaches the same verdicts in every store. *)
Lemma judge_any_store (pred : pyfun) (args : list val) (kw : kwargs)
    (h h' : heap) (x : val) :
  (forall h1 h2 a k, pred h1 a k = pred h2 a k) ->
  (forall h1 a k b, pred h1 a k <> Ok (VRef b)) ->
  judge pred args kw h' x = judge pred args kw h x.
Proof.
  intros Hblind Hplain.
  assert (Hb : bound pred args kw h' x = bound pred args kw h x).
  { unfold bound, List._f.
    destruct (is_nil args && is_nil kw); [apply Hblind|].
    destruct (negb (Blank_in args)); [apply Hblind|].
    destruct (index_Blank args); simpl; [apply Hblind|reflexivity]. }
  unfold judge. rewrite Hb.
  destruct (bound pred args kw h x) as [y|e] eqn:Hy; [|reflexivity].
  simpl. f_equal.
  destruct y; try reflexivity.
  exfalso. revert Hy. unfold bound, List._f.
  destruct (is_nil args && is_nil kw); [apply Hplain|].
  destruct (negb (Blank_in args)); [apply Hplain|].
  destruct (index_Blank args); simpl; [apply Hplain|discriminate].
Qed.

(** C8. [S.keep(pred).count()] and [S.count(pred)], each run from the same
    store, give the same value (or raise the same exception): the number
    of items of [S] on which [pred] holds. [count(pred)] runs [pred] while
    its own clone of [S] is in the store; the verdicts of [pred] are taken
    not to depend on that clone, to which [pred] has no reference. *)
Theorem List_keep_count (h : heap) (self : addr) (l : list val)
    (lv : option val) (pred : pyfun) (args : list val) (kw : kwargs) :
  h !! self = Some (OList l lv) ->
  Forall (fun x => judge pred args kw (h ++ [OList l None]) x
                   = judge pred args kw h x) l ->
  value_of (r <- List.keep self (Some (pred, args)) kw h ;;
            send (fst r) (fun a => List.count a None []) (snd r))
    = value_of (List.count self (Some (pred, args)) kw h) /\
  (Forall (fun x => exists y, bound pred args kw h x = Ok y) l ->
   value_of (List.count self (Some (pred, args)) kw h)
     = Ok (VInt (Z.of_nat (length
         (filter (fun x => holds (bound pred args kw h) h x = true) l))))).
Proof.
  intros Hself Hblind.
  pose proof (lookup_lt_Some _ _ _ Hself) as Hlt.
  destruct (_f_total pred args kw) as [c Hc].
  pose proof (bound_agrees pred args kw c h Hc) as Hag.
  pose proof (bound_agrees pred args kw c (h ++ [OList l None]) Hc) as Hag1.
  assert (Hnew : (h ++ [OList l None]) !! length h = Some (OList l None)).
  { apply list_lookup_middle. reflexivity. }
  assert (Hcount : value_of (List.count self (Some (pred, args)) kw h)
    = (xs <- gen_filter true c h l ;; Ok (VInt (Z.of_nat (length xs))))).
  { unfold List.count, List.clone, List.new. cbn [no_args andb].
    rewrite (items_of_lookup h self l lv Hself). simpl.
    unfold List.keep, List._moka_assign.
    rewrite Hc, (items_of_lookup _ _ l None Hnew). simpl.
    rewrite (gen_filter_judge pred args kw true _ h l Hblind c c Hag1 Hag).
    destruct (gen_filter true c h l) as [xs|e]; simpl; [|reflexivity].
    rewrite Hnew. simpl.
    rewrite list_lookup_insert_eq by (rewrite length_app; simpl; lia).
    reflexivity. }
  split.
  - rewrite Hcount.
    unfold List.keep, List._moka_assign.
    rewrite Hc, (items_of_lookup h self l lv Hself). simpl.
    destruct (gen_filter true c h l) as [xs|e]; simpl; [|reflexivity].
    rewrite Hself. simpl. unfold List.count. simpl.
    rewrite list_lookup_insert_eq by exact Hlt. reflexivity.
  - intros Hret. rewrite Hcount.
    rewrite (gen_filter_verdict h _ true l Hret c Hag). reflexivity.
Qed.

(** On [[-1, 3, 5]] with [lambda x: x > 0], both are 2. *)
Lemma List_keep_count_positive :
  value_of (r <- List.keep 0%nat (Some (positive, [])) []
                   [OList [VInt (-1); VInt 3; VInt 5] None] ;;
            send (fst r) (fun a => List.count a None []) (snd r))
    = value_of (List.count 0%nat (Some (positive, [])) []
                  [OList [VInt (-1); VInt 3; VInt 5] None]).
Proof.
  refine (proj1 (List_keep_count [OList [VInt (-1); VInt 3; VInt 5] None]
                   0%nat _ None positive [] [] _ _)).
  - reflexivity.
  - repeat constructor.
Defined.

(** ** do *)

(** C3, as the code has it. On a [List], [do(f, *args, **kwargs)] returns
    what the bound callable returns on the container: [f(S, *args,
    **kwargs)] when no bound argument is the placeholder; the store is
    left as it was. On a [Dict], [do] calls [f(M, *args, **kwargs)], keeps
    what it returns in [M.last_value] and returns [M] itself. *)
Theorem do_returns (h : heap) (self : addr) (f : pyfun) (args : list val)
    (kw : kwargs) :
  List.do self (Some (f, args)) kw h
    = (v <- bound f args kw h (VRef self) ;; Ok (v, h)) /\
  (Blank_in args = false ->
   List.do self (Some (f, args)) kw h
     = (v <- f h (VRef self :: args) kw ;; Ok (v, h))) /\
  (forall es moka_save lv,
     h !! self = Some (ODict es moka_save lv) ->
     Dict.do self (Some (f, args)) kw h
       = (v <- f h (VRef self :: args) kw ;;
          Ok (VRef self, <[self := ODict es moka_save (Some v)]> h))).
Proof.
  assert (Hdo : List.do self (Some (f, args)) kw h
                = (v <- bound f args kw h (VRef self) ;; Ok (v, h))).
  { unfold List.do, bound.
    destruct (List._f (Some (f, args)) kw); reflexivity. }
  split; [exact Hdo|]. split.
  - intros Hno. rewrite Hdo. unfold bound.
    rewrite (_f_plain f args kw Hno). simpl.
    destruct (is_nil args && is_nil kw) eqn:Hnil; [|reflexivity].
    apply andb_true_iff in Hnil as [Ha Hk].
    destruct args; [|discriminate]. destruct kw; [|discriminate].
    reflexivity.
  - intros es moka_save lv Hself. unfold Dict.do.
    destruct (f h (VRef self :: args) kw); simpl; [|reflexivity].
    rewrite Hself. reflexivity.
Qed.

(** [List([1, 2]).do(len)] is 2; on the empty [Dict], [do(len)] is the
    [Dict], with 0 in [last_value]. *)
Lemma do_returns_len :
  List.do 0%nat (Some (len_fn, [])) [] [OList [VInt 1; VInt 2] None]
    = Ok (VInt 2, [OList [VInt 1; VInt 2] None]) /\
  Dict.do 0%nat (Some (len_fn, [])) [] [ODict [] false None]
    = Ok (VRef 0%nat, [ODict [] false (Some (VInt 0))]).
Proof.
  split.
  - exact (proj1 (proj2
      (do_returns [OList [VInt 1; VInt 2] None] 0%nat len_fn [] []))
      eq_refl).
  - exact (proj2 (proj2
      (do_returns [ODict [] false None] 0%nat len_fn [] []))
      [] false None eq_refl).
Defined.

(** C3, as the specification words it: on the empty [Dict] [M], [len(M)] is 0 but
    [M.do(len)] returns [M]. *)
Lemma Dict_do_returns_the_container :
  len_fn [ODict [] false None] [VRef 0%nat] [] = Ok (VInt 0) /\
  value_of (Dict.do 0%nat (Some (len_fn, [])) [] [ODict [] false None])
    = Ok (VRef 0%nat) /\
  value_of (Dict.do 0%nat (Some (len_fn, [])) [] [ODict [] false None])
    <> len_fn [ODict [] false None] [VRef 0%nat] [].
Proof.
  split; [reflexivity|]. split; [reflexivity|]. discriminate.
Qed.

(** ** The wrapped builtin methods of List *)

Lemma getattr_list_proxied (list_sort : builtin) (name : string) :
  In name List.proxied -> exists m, getattr_list list_sort name = Ok m.
Proof.
  unfold List.proxied. simpl.
  intros [<-|[<-|[<-|[<-|[<-|[]]]]]]; unfold getattr_list; simpl; eauto.
Qed.

(** What [map], [keep] and [rem] leave: the store they were given, with
    the object at [self] replaced. *)
Lemma List_assign_frame (self : addr) (items : result (list val))
    (h h' : heap) (v : val) :
  List._moka_assign self items h = Ok (v, h') ->
  exists o, h' = <[self := o]> h.
Proof.
  unfold List._moka_assign.
  destruct items as [l|e]; simpl; [|discriminate].
  destruct (h !! self) as [[? lv|]|]; try discriminate.
  intros [= <- <-]. eauto.
Qed.

Lemma List_mutators_frame (self : addr) (sargs : star_args) (kw : kwargs)
    (h h' : heap) (v : val) :
  List.map self sargs kw h = Ok (v, h') \/
  List.keep self sargs kw h = Ok (v, h') \/
  List.rem self sargs kw h = Ok (v, h') ->
  exists o, h' = <[self := o]> h.
Proof.
  unfold List.map, List.keep, List.rem.
  intros [H|[H|H]];
    destruct (List._f sargs kw); simpl in H; try discriminate;
    destruct (items_of h self); simpl in H; try discriminate;
    eapply List_assign_frame; exact H.
Qed.

(** C4. Each wrapped method ([append], [extend], [sort], [reverse],
    [insert]) makes a new [List] of the receiver's items, lets the builtin
    method change that new object, and returns it; the receiver [A] and
    every other object of the store are as before. And for
    [B = A.append(x)], [B] is another object than [A], so that nothing
    written into [B] afterwards (by [map], [keep], [rem], or any
    replacement of [B]'s contents) changes the number of items of [A]. *)
Theorem List_adapters_copy (list_sort : builtin) (h : heap) (a : addr)
    (l : list val) (lv : option val) :
  h !! a = Some (OList l lv) ->
  (forall name args kw,
     In name List.proxied ->
     exists m,
       getattr_list list_sort name = Ok m /\
       forall l',
         m (h ++ [OList l None]) l args kw = Ok l' ->
         List._proxy list_sort name a args kw h
           = Ok (VRef (length h), h ++ [OList l' None]) /\
         (h ++ [OList l' None]) !! a = Some (OList l lv) /\
         length h <> a) /\
  (forall x,
     exists b h1,
       List.append list_sort a [x] [] h = Ok (VRef b, h1) /\
       b <> a /\
       h1 !! b = Some (OList (l ++ [x]) None) /\
       h1 !! a = Some (OList l lv) /\
       (forall o, len (<[b := o]> h1) (VRef a) = Ok (Z.of_nat (length l))) /\
       (forall sargs kw v h2,
          List.map b sargs kw h1 = Ok (v, h2) \/
          List.keep b sargs kw h1 = Ok (v, h2) \/
          List.rem b sargs kw h1 = Ok (v, h2) ->
          len h2 (VRef a) = Ok (Z.of_nat (length l)))).
Proof.
  intros Ha.
  pose proof (lookup_lt_Some _ _ _ Ha) as Hlt.
  assert (Hne : length h <> a) by lia.
  assert (Hproxy : forall name m args kw l',
    getattr_list list_sort name = Ok m ->
    m (h ++ [OList l None]) l args kw = Ok l' ->
    List._proxy list_sort name a args kw h
      = Ok (VRef (length h), h ++ [OList l' None])).
  { intros name m args kw l' Hm Hl'. unfold List._proxy.
    rewrite (items_of_lookup h a l lv Ha). simpl.
    rewrite Hm. simpl. rewrite Hl'. simpl.
    replace (length h) with (length h + 0)%nat at 2 by lia.
    rewrite insert_app_r. reflexivity. }
  assert (Hkeep : forall l', (h ++ [OList l' None]) !! a = Some (OList l lv)).
  { intros l'. rewrite lookup_app_l by exact Hlt. exact Ha. }
  split.
  - intros name args kw Hin.
    destruct (getattr_list_proxied list_sort name Hin) as [m Hm].
    exists m. split; [exact Hm|]. intros l' Hl'.
    split; [eapply Hproxy; eassumption|]. split; [apply Hkeep|exact Hne].
  - intros x. exists (length h), (h ++ [OList (l ++ [x]) None]).
    split; [|split; [exact Hne|split; [|split; [apply Hkeep|split]]]].
    + unfold List.append. eapply Hproxy; reflexivity.
    + apply list_lookup_middle. reflexivity.
    + intros o. simpl.
      rewrite list_lookup_insert_ne by exact Hne.
      rewrite Hkeep. reflexivity.
    + intros sargs kw v h2 Hop.
      destruct (List_mutators_frame _ _ _ _ _ _ Hop) as [o ->]. simpl.
      rewrite list_lookup_insert_ne by exact Hne.
      rewrite Hkeep. reflexivity.
Qed.

(** [A = [3, 1]]: [A.append(2)] is a new [[3, 1, 2]], [A] is still
    [[3, 1]]. *)
Lemma List_adapters_copy_append :
  [OList [VInt 3; VInt 1] None] !! 0%nat
    = Some (OList [VInt 3; VInt 1] None) /\
  exists b h1,
    List.append sort_ints 0%nat [VInt 2] [] [OList [VInt 3; VInt 1] None]
      = Ok (VRef b, h1) /\
    b <> 0%nat /\
    h1 !! b = Some (OList [VInt 3; VInt 1; VInt 2] None) /\
    h1 !! 0%nat = Some (OList [VInt 3; VInt 1] None).
Proof.
  assert (H0 : [OList [VInt 3; VInt 1] None] !! 0%nat
               = Some (OList [VInt 3; VInt 1] None)) by reflexivity.
  split; [exact H0|].
  destruct (proj2 (List_adapters_copy sort_ints _ 0%nat _ None H0) (VInt 2))
    as (b & h1 & Happ & Hne & Hb & Ha & _).
  exists b, h1. auto.
Defined.

(** ** Dict: the transforms and [_moka_save] *)

Lemma Dict_init_gen (h : heap) (g : generator) :
  Dict.__init__ (Gen g) [] h
  = (es <- update_gen h g [] ;;
     Ok (VRef (length h), h ++ [ODict es false None])).
Proof.
  unfold Dict.__init__, dict_update. simpl.
  destruct (update_gen h g []); reflexivity.
Qed.

Lemma entries_of_lookup (h : heap) (self : addr) (es : entries)
    (moka_save : bool) (lv : option val) :
  h !! self = Some (ODict es moka_save lv) -> entries_of h self = Ok es.
Proof. intros H. unfold entries_of. rewrite H. reflexivity. Qed.

(** [map], [keep] and [rem] on a [Dict], by the value of [_moka_save]. *)
Lemma Dict_transforms_by_flag (h : heap) (self : addr) (es : entries)
    (moka_save : bool) (lv : option val) (f : pyfun) (args : list val)
    (kw : kwargs) :
  h !! self = Some (ODict es moka_save lv) ->
  let built (items : generator) : outcome :=
    if moka_save then Ok (VNone, h)
    else (es' <- update_gen h items [] ;;
          Ok (VRef (length h), h ++ [ODict es' false None])) in
  Dict.map self (Some (f, args)) kw h
    = built (gen_map2 (fun h x y => f h (x :: y :: args) kw) h es) /\
  Dict.keep self (Some (f, args)) kw h
    = built (gen_filter2 true (fun h x y => f h (x :: y :: args) kw) h es) /\
  Dict.rem self (Some (f, args)) kw h
    = built (gen_filter2 false (fun h x y => f h (x :: y :: args) kw) h es).
Proof.
  intros Hself.
  unfold Dict.map, Dict.keep, Dict.rem, Dict._moka_assign. simpl.
  rewrite (entries_of_lookup h self es moka_save lv Hself). simpl.
  rewrite Hself.
  destruct moka_save; [auto|].
  rewrite !Dict_init_gen. auto.
Qed.

(** C2, as the code has it. On a [Dict] whose [_moka_save] is set, [map],
    [keep] and [rem] return [None] and leave every object of the store,
    the receiver included, as it was: the callback is not even called.
    When it is unset, they hand the generator of the items ([f(k, v)] for
    [map], the [(k, v)] retained for [keep] and [rem]) to [Dict], which
    draws them one by one, each stored before the next is asked for, and
    they return the new [Dict] this makes. *)
Theorem Dict_moka_save_branch (h : heap) (self : addr) (es : entries)
    (moka_save : bool) (lv : option val) (f : pyfun) (args : list val)
    (kw : kwargs) :
  h !! self = Some (ODict es moka_save lv) ->
  (moka_save = true ->
   Dict.map self (Some (f, args)) kw h = Ok (VNone, h) /\
   Dict.keep self (Some (f, args)) kw h = Ok (VNone, h) /\
   Dict.rem self (Some (f, args)) kw h = Ok (VNone, h)) /\
  (moka_save = false ->
   Dict.map self (Some (f, args)) kw h
     = (es' <- update_gen h
                 (gen_map2 (fun h x y => f h (x :: y :: args) kw) h es) [] ;;
        Ok (VRef (length h), h ++ [ODict es' false None])) /\
   Dict.keep self (Some (f, args)) kw h
     = (es' <- update_gen h
                 (gen_filter2 true (fun h x y => f h (x :: y :: args) kw)
                    h es) [] ;;
        Ok (VRef (length h), h ++ [ODict es' false None])) /\
   Dict.rem self (Some (f, args)) kw h
     = (es' <- update_gen h
                 (gen_filter2 false (fun h x y => f h (x :: y :: args) kw)
                    h es) [] ;;
        Ok (VRef (length h), h ++ [ODict es' false None]))).
Proof.
  intros Hself.
  pose proof (Dict_transforms_by_flag h self es moka_save lv f args kw Hself)
    as Hflag.
  split; intros ->; exact Hflag.
Qed.

(** [M = {1: 2}] with [_moka_save] set: [M.keep(lambda k, v: v > 0)] is
    [None]. Unset, [M.rem(...)] is a new, empty [Dict]. And for
    [M = {'a': 1, 'b': 0}], unset, [M.map(lambda k, v: 1 // v)] raises
    [TypeError]: the first item, [1], is no pair, and the callback is not
    called on ['b']. *)
Lemma Dict_moka_save_branch_example :
  Dict.keep 0%nat (Some (positive_value, [])) []
    [ODict [(VInt 1, VInt 2)] true None]
    = Ok (VNone, [ODict [(VInt 1, VInt 2)] true None]) /\
  Dict.rem 0%nat (Some (positive_value, [])) []
    [ODict [(VInt 1, VInt 2)] false None]
    = Ok (VRef 1%nat, [ODict [(VInt 1, VInt 2)] false None;
                       ODict [] false None]) /\
  Dict.map 0%nat
    (Some ((fun h a kw =>
              match a with
              | [k; v] => divide h [VInt 1; v] kw
              | _ => Raise TypeError
              end), [])) []
    [ODict [(VStr "a", VInt 1); (VStr "b", VInt 0)] false None]
    = Raise TypeError.
Proof.
  split; [|split].
  - exact (proj1 (proj2 (proj1
      (Dict_moka_save_branch [ODict [(VInt 1, VInt 2)] true None] 0%nat
         _ true None positive_value [] [] eq_refl) eq_refl))).
  - exact (proj2 (proj2 (proj2
      (Dict_moka_save_branch [ODict [(VInt 1, VInt 2)] false None] 0%nat
         _ false None positive_value [] [] eq_refl) eq_refl))).
  - exact (proj1 (proj2
      (Dict_moka_save_branch
         [ODict [(VStr "a", VInt 1); (VStr "b", VInt 0)] false None] 0%nat
         _ false None _ [] [] eq_refl) eq_refl)).
Defined.

(** C2, as the specification words it: [M = {1: 2}] with [_moka_save] set.
    [M.rem(lambda k, v: v > 0)] would retain nothing, yet afterwards [M]
    still holds its entry. *)
Lemma Dict_moka_save_does_not_mutate :
  update_gen [ODict [(VInt 1, VInt 2)] true None]
    (gen_filter2 false (fun h x y => positive_value h [x; y] [])
       [ODict [(VInt 1, VInt 2)] true None] [(VInt 1, VInt 2)]) []
  = Ok [] /\
  exists h',
    Dict.rem 0%nat (Some (positive_value, [])) []
      [ODict [(VInt 1, VInt 2)] true None] = Ok (VNone, h') /\
    entries_of h' 0%nat = Ok [(VInt 1, VInt 2)] /\
    entries_of h' 0%nat <> Ok [].
Proof.
  split; [reflexivity|].
  eexists. split; [reflexivity|]. split; [reflexivity|discriminate].
Qed.

(** ** Entries: what insertion keeps *)

Lemma assoc_set_keys (q : val -> bool) (k v : val) (es : entries) :
  q k = true ->
  forallb (fun e => q (fst e)) es = true ->
  forallb (fun e => q (fst e)) (assoc_set k v es) = true.
Proof.
  intros Hk. induction es as [|[k' v'] es IH]; simpl.
  - intros _. rewrite Hk. reflexivity.
  - intros H. apply andb_true_iff in H as [Hk' Hes].
    destruct (key_eq k' k); simpl; rewrite Hk'; simpl; auto.
Qed.

Lemma assoc_set_wf (k v : val) (es : entries) :
  hashable k = true -> keys_wf es = true -> keys_wf (assoc_set k v es) = true.
Proof.
  intros Hk. induction es as [|[k' v'] es IH]; simpl.
  - intros _. rewrite Hk. reflexivity.
  - intros H. apply andb_true_iff in H as [H Hes].
    apply andb_true_iff in H as [Hk' Hfresh].
    destruct (key_eq k' k) eqn:Heq; simpl.
    + rewrite Hk', Hfresh, Hes. reflexivity.
    + rewrite Hk', (IH Hes). simpl.
      rewrite (assoc_set_keys (fun x => negb (key_eq k' x)) k v es);
        [reflexivity| |exact Hfresh].
      simpl. rewrite Heq. reflexivity.
Qed.

Lemma assoc_set_fresh (k v : val) (es : entries) :
  forallb (fun e => negb (key_eq (fst e) k)) es = true ->
  assoc_set k v es = es ++ [(k, v)].
Proof.
  induction es as [|[k' v'] es IH]; simpl; [reflexivity|].
  intros H. apply andb_true_iff in H as [Hk' Hes].
  apply negb_true_iff in Hk'. rewrite Hk', (IH Hes). reflexivity.
Qed.

Lemma keys_wf_app_cons (acc ps : entries) (k v : val) :
  keys_wf (acc ++ (k, v) :: ps) = true ->
  hashable k = true /\
  forallb (fun e => negb (key_eq (fst e) k)) acc = true.
Proof.
  induction acc as [|[k' v'] acc IH]; simpl.
  - intros H. apply andb_true_iff in H as [H _].
    apply andb_true_iff in H as [H _]. auto.
  - intros H. apply andb_true_iff in H as [H Hacc].
    apply andb_true_iff in H as [_ Hfresh].
    destruct (IH Hacc) as [Hk Hrest]. split; [exact Hk|].
    rewrite forallb_app in Hfresh.
    apply andb_true_iff in Hfresh as [_ Hfresh]. simpl in Hfresh.
    apply andb_true_iff in Hfresh as [Hfresh _].
    rewrite Hfresh, Hrest. reflexivity.
Qed.

(** Inserting, one after the other, the entries of a dict into what comes
    before them gives them back in their order. *)
Lemma update_pairs_fresh (ps acc : entries) :
  keys_wf (acc ++ ps) = true -> update_pairs ps acc = Ok (acc ++ ps).
Proof.
  revert acc. induction ps as [|[k v] ps IH]; intros acc Hwf; simpl.
  - rewrite app_nil_r. reflexivity.
  - destruct (keys_wf_app_cons acc ps k v Hwf) as [Hk Hfresh].
    unfold setitem. rewrite Hk. simpl.
    rewrite (assoc_set_fresh k v acc Hfresh).
    rewrite IH; rewrite <- app_assoc; [reflexivity|exact Hwf].
Qed.

Lemma update_items_pairs (h : heap) (ps acc : entries) :
  update_items h (pair_val <$> ps) acc = update_pairs ps acc.
Proof.
  revert acc. induction ps as [|[k v] ps IH]; intros acc; simpl;
    [reflexivity|].
  destruct (setitem k v acc); simpl; [apply IH|reflexivity].
Qed.

Lemma update_pairs_wf (ps es es' : entries) :
  keys_wf es = true -> update_pairs ps es = Ok es' -> keys_wf es' = true.
Proof.
  revert es. induction ps as [|[k v] ps IH]; intros es Hwf; simpl.
  - intros [= <-]. exact Hwf.
  - unfold setitem. destruct (hashable k) eqn:Hk; simpl; [|discriminate].
    apply IH, assoc_set_wf; assumption.
Qed.

Lemma update_items_wf (h : heap) (items : list val) (es es' : entries) :
  keys_wf es = true -> update_items h items es = Ok es' -> keys_wf es' = true.
Proof.
  revert es. induction items as [|it items IH]; intros es Hwf; simpl.
  - intros [= <-]. exact Hwf.
  - destruct (as_pair h it) as [[k v]|e]; simpl; [|discriminate].
    unfold setitem. destruct (hashable k) eqn:Hk; simpl; [|discriminate].
    apply IH, assoc_set_wf; assumption.
Qed.

Lemma update_gen_wf (h : heap) (g : generator) (es es' : entries) :
  keys_wf es = true -> update_gen h g es = Ok es' -> keys_wf es' = true.
Proof.
  revert es. induction g as [|turn g IH]; intros es Hwf; simpl.
  - intros [= <-]. exact Hwf.
  - destruct turn as [[it|]|e]; simpl; [|apply IH, Hwf|discriminate].
    destruct (as_pair h it) as [[k v]|e]; simpl; [|discriminate].
    unfold setitem. destruct (hashable k) eqn:Hk; simpl; [|discriminate].
    apply IH, assoc_set_wf; assumption.
Qed.

Lemma dict_update_wf (h : heap) (arg : dict_arg) (kw : kwargs)
    (es es' : entries) :
  keys_wf es = true -> dict_update h arg kw es = Ok es' -> keys_wf es' = true.
Proof.
  intros Hwf. unfold dict_update. intros H.
  apply bind_Ok in H as (es1 & H1 & H2).
  eapply update_pairs_wf; [|exact H2].
  destruct arg as [|ps|items|g].
  - injection H1 as <-. exact Hwf.
  - eapply update_pairs_wf; eassumption.
  - apply bind_Ok in H1 as (its & _ & H1).
    eapply update_items_wf; eassumption.
  - eapply update_gen_wf; eassumption.
Qed.

Lemma keys_wf_filter (P : val * val -> Prop) `{forall e, Decision (P e)}
    (es : entries) :
  keys_wf es = true -> keys_wf (filter P es) = true.
Proof.
  induction es as [|[k v] es IH]; simpl; [reflexivity|].
  intros Hwf. apply andb_true_iff in Hwf as [Hwf Hes].
  apply andb_true_iff in Hwf as [Hk Hfresh].
  rewrite filter_cons. destruct (decide (P (k, v))); [|apply IH, Hes].
  simpl. rewrite Hk, (IH Hes). simpl.
  rewrite andb_true_r. apply forallb_forall.
  intros e He. rewrite forallb_forall in Hfresh. apply Hfresh.
  apply list_elem_of_In. apply list_elem_of_In in He.
  apply list_elem_of_filter in He. tauto.
Qed.

(** ** The invariant of the reachable stores *)

Lemma heap_wf_snoc (h : heap) (o : obj) :
  heap_wf h -> obj_wf o -> heap_wf (h ++ [o]).
Proof.
  intros Hh Ho. apply Forall_app. split; [exact Hh|]. constructor; auto.
Qed.

Lemma heap_wf_insert (h : heap) (a : addr) (o : obj) :
  heap_wf h -> obj_wf o -> heap_wf (<[a := o]> h).
Proof. intros Hh Ho. apply Forall_insert; assumption. Qed.

Lemma heap_wf_lookup (h : heap) (a : addr) (o : obj) :
  heap_wf h -> h !! a = Some o -> obj_wf o.
Proof. intros Hh Ha. exact (Forall_lookup_1 _ _ _ _ Hh Ha). Qed.

Lemma lookup_new (h : heap) (o : obj) : (h ++ [o]) !! length h = Some o.
Proof. apply list_lookup_middle. reflexivity. Qed.

(** Taking a successful call apart: every step of it succeeded. *)
Ltac crunch :=
  repeat match goal with
  | H : bind _ _ = Ok _ |- _ =>
      apply bind_Ok in H; destruct H as (? & ? & H)
  | H : Raise _ = Ok _ |- _ => discriminate H
  | H : Ok _ = Ok _ |- _ => injection H as H
  | H : (_, _) = (_, _) |- _ => injection H as ? ?
  | x : (_ * _)%type |- _ => destruct x; simpl in *
  | H : context [(?h ++ [?o]) !! length ?h] |- _ =>
      rewrite (lookup_new h o) in H
  | H : context [match ?x with _ => _ end] |- _ => destruct x eqn:?
  end; subst; simpl in *.

Ltac wf_solve :=
  repeat first
    [ assumption
    | exact I
    | reflexivity
    | apply heap_wf_insert
    | apply heap_wf_snoc
    | split ].

Lemma List_new_wf (it : result (list val)) (h h' : heap) (v : val) :
  heap_wf h -> List.new it h = Ok (v, h') -> heap_wf h'.
Proof.
  intros Hh H. unfold List.new, alloc in H. crunch. wf_solve.
Qed.

Lemma List_methods_wf (m : method) (self : addr) (sargs : star_args)
    (kw : kwargs) (h h' : heap) (v : val) :
  In m List_methods ->
  heap_wf h -> m self sargs kw h = Ok (v, h') -> heap_wf h'.
Proof.
  unfold List_methods. simpl.
  intros [<-|[<-|[<-|[<-|[<-|[<-|[<-|[<-|[<-|[<-|[<-|[]]]]]]]]]]]] Hh H;
    unfold List.has, List.count, List.clone, List.tee, List.do, List.map,
      List.keep, List.rem, List.empty, List.find, List.some, List.all,
      List.new, List._moka_assign, send, alloc in H;
    crunch; wf_solve.
Qed.

Lemma List_clone_wf (self : addr) (h h' : heap) (v : val) :
  heap_wf h -> List.clone self h = Ok (v, h') -> heap_wf h'.
Proof. unfold List.clone. apply List_new_wf. Qed.

Lemma List_proxy_wf (list_sort : builtin) (name : string) (self : addr)
    (args : list val) (kw : kwargs) (h h' : heap) (v : val) :
  heap_wf h -> List._proxy list_sort name self args kw h = Ok (v, h') ->
  heap_wf h'.
Proof.
  intros Hh H. unfold List._proxy, alloc in H. crunch. wf_solve.
Qed.

(** Every [Dict] is born at a new address, a dict, with [_moka_save]
    unset. *)
Lemma Dict_init_shape (arg : dict_arg) (kw : kwargs) (h h' : heap) (v : val) :
  Dict.__init__ arg kw h = Ok (v, h') ->
  exists es,
    keys_wf es = true /\ v = VRef (length h) /\
    h' = h ++ [ODict es false None].
Proof.
  unfold Dict.__init__, alloc. intros H.
  apply bind_Ok in H as (es & Hes & H). injection H as <- <-.
  exists es. split; [|auto].
  eapply dict_update_wf; [|exact Hes]. reflexivity.
Qed.

Ltac crunch_dict :=
  crunch;
  repeat (match goal with
          | H : Dict.__init__ _ _ _ = Ok _ |- _ =>
              apply Dict_init_shape in H; destruct H as (? & ? & ? & ?)
          end; crunch).

Ltac wf_dict :=
  repeat first
    [ assumption
    | exact I
    | reflexivity
    | match goal with
      | H : ?h !! ?a = Some (ODict ?es ?s _), Hh : heap_wf ?h
        |- obj_wf (ODict ?es ?s _) => exact (heap_wf_lookup h a _ Hh H)
      | H : dict_update _ _ _ ?es = Ok ?es' |- keys_wf ?es' = true =>
          apply (dict_update_wf _ _ _ _ _) in H
      end
    | apply heap_wf_insert
    | apply heap_wf_snoc
    | split ].

Lemma Dict_new_wf (args : list val) (kw : kwargs) (h h' : heap) (v : val) :
  heap_wf h -> Dict.new args kw h = Ok (v, h') -> heap_wf h'.
Proof.
  intros Hh H. unfold Dict.new in H.
  apply bind_Ok in H as (arg & _ & H).
  apply Dict_init_shape in H as (es & Hes & -> & ->). wf_dict.
Qed.

Lemma Dict_methods_wf (m : method) (self : addr) (sargs : star_args)
    (kw : kwargs) (h h' : heap) (v : val) :
  In m Dict_methods ->
  heap_wf h -> m self sargs kw h = Ok (v, h') -> heap_wf h'.
Proof.
  unfold Dict_methods. simpl.
  intros [<-|[<-|[<-|[<-|[<-|[<-|[<-|[<-|[]]]]]]]]] Hh H;
    unfold Dict.count, Dict.empty, Dict.Dict_self, Dict.map, Dict.keep,
      Dict.rem, Dict.all, Dict.some, Dict.do, Dict._moka_assign, send in H;
    crunch_dict; wf_dict.
Qed.

Lemma Dict_copies_wf (self : addr) (h h' : heap) (v : val) :
  heap_wf h ->
  Dict.clone self h = Ok (v, h') \/ Dict.copy self h = Ok (v, h') ->
  heap_wf h'.
Proof.
  intros Hh [H|H]; unfold Dict.clone, Dict.copy, Dict.Dict_self in H;
    crunch_dict; wf_dict.
Qed.

Lemma Dict_fromkeys_wf (args : list val) (kw : kwargs) (h h' : heap)
    (v : val) :
  heap_wf h -> Dict.fromkeys args kw h = Ok (v, h') -> heap_wf h'.
Proof.
  intros Hh H. unfold Dict.fromkeys in H.
  apply bind_Ok in H as (es & _ & H).
  apply Dict_init_shape in H as (es' & Hes & -> & ->). wf_dict.
Qed.

Lemma Dict_proxy_wf (name : string) (self : addr) (args : list val)
    (kw : kwargs) (h h' : heap) (v : val) :
  In name Dict.proxied ->
  heap_wf h -> Dict._proxy name self args kw h = Ok (v, h') -> heap_wf h'.
Proof.
  unfold Dict.proxied. simpl. intros [<-|[<-|[]]] Hh H;
    unfold Dict._proxy, Dict.Dict_self in H;
    apply bind_Ok in H as ([v0 h0] & Hinit & H);
    apply bind_Ok in Hinit as (es & _ & Hinit);
    apply Dict_init_shape in Hinit as (es0 & Hes0 & -> & ->);
    simpl in H; rewrite lookup_new in H;
    unfold dict_update_method, dict_clear in H; crunch.
  - apply heap_wf_insert; [wf_dict|].
    split; [|reflexivity]. eapply dict_update_wf; eassumption.
  - wf_dict.
Qed.

(** In a store reached through the public methods, every [Dict] is a
    dict whose [_moka_save] is unset. *)
Lemma reachable_wf (list_sort : builtin) (h : heap) :
  reachable list_sort h -> heap_wf h.
Proof.
  induction 1 as [|h h' _ IH Hstep]; [constructor|].
  destruct Hstep.
  - eapply List_new_wf; eassumption.
  - eapply List_methods_wf; eassumption.
  - eapply List_clone_wf; eassumption.
  - eapply List_proxy_wf; eassumption.
  - apply heap_wf_insert; [assumption|exact I].
  - eapply Dict_new_wf; eassumption.
  - eapply Dict_methods_wf; eassumption.
  - eapply Dict_copies_wf; eauto.
  - eapply Dict_copies_wf; eauto.
  - eapply Dict_fromkeys_wf; eassumption.
  - eapply Dict_proxy_wf; eassumption.
  - apply heap_wf_insert; [assumption|].
    split; [assumption|].
    match goal with
    | H : _ !! _ = Some (ODict _ _ _) |- _ =>
        exact (proj2 (heap_wf_lookup _ _ _ IH H))
    end.
Qed.

(** ** Dict: the transforms leave the receiver alone *)

(** What [dict] draws from the generator of [keep] or [rem], when the
    callback returns on every entry: the entries retained. *)
Lemma gen_filter2_verdict (sense : bool) (g : callable2) (h : heap)
    (es acc : entries) :
  Forall (fun e => exists z, g h (fst e) (snd e) = Ok z) es ->
  update_gen h (gen_filter2 sense g h es) acc
  = update_pairs
      (filter (fun e => (if sense then holds2 (g h) h e
                         else fails2 (g h) h e) = true) es) acc.
Proof.
  intros H. revert acc.
  induction H as [|[k v] es [z Hz] _ IH]; intros acc; simpl;
    [reflexivity|].
  simpl in Hz. rewrite Hz. simpl.
  rewrite filter_cons.
  assert (Hv : (if sense then holds2 (g h) h (k, v)
                else fails2 (g h) h (k, v))
               = bool_decide (truthy h z = sense)).
  { unfold holds2, fails2. simpl. rewrite Hz.
    destruct sense, (truthy h z); reflexivity. }
  rewrite Hv.
  destruct (decide (bool_decide (truthy h z = sense) = true)) as [E|E].
  - rewrite E. simpl. destruct (setitem k v acc); simpl;
      [apply IH|reflexivity].
  - apply not_true_is_false in E. rewrite E. apply IH.
Qed.

(** What [dict] draws from the generator of [map], when the callback
    returns on every entry: the items it returned, in order. *)
Lemma gen_map2_Forall2 (g : callable2) (h : heap) (es : entries)
    (zs : list val) (acc : entries) :
  Forall2 (fun e z => g h (fst e) (snd e) = Ok z) es zs ->
  update_gen h (gen_map2 g h es) acc = update_items h zs acc.
Proof.
  intros H. revert acc.
  induction H as [|[k v] z es zs Hz _ IH]; intros acc; simpl;
    [reflexivity|].
  simpl in Hz. rewrite Hz. simpl.
  destruct (as_pair h z) as [p|e]; simpl; [|reflexivity].
  destruct (setitem (fst p) (snd p) acc); simpl; [apply IH|reflexivity].
Qed.

Lemma update_pairs_total (ps es : entries) :
  forallb (fun e => hashable (fst e)) ps = true ->
  exists es', update_pairs ps es = Ok es'.
Proof.
  revert es. induction ps as [|[k v] ps IH]; intros es; simpl; [eauto|].
  intros H. apply andb_true_iff in H as [Hk Hps].
  unfold setitem. rewrite Hk. simpl. apply IH, Hps.
Qed.

(** C10. Let [M] be a [Dict] of a store reached through the public
    methods. Its [_moka_save] is unset, and:
    - whenever [map], [keep] or [rem] returns, it returns a [Dict] at an
      address the store did not have, with [_moka_save] unset, and the
      store is the old one with that object added: [M], like every other
      object, is as before;
    - [keep] and [rem] return whenever the callback returns on every
      entry, and the new [Dict] holds the entries of [M], in their order,
      on which the callback holds, respectively fails;
    - [map] returns whenever the callback gives, on every entry, a pair
      with a hashable key, and the new [Dict] is the one these pairs
      make. *)
Theorem Dict_transforms_copy (list_sort : builtin) (h : heap) (m : addr)
    (es : entries) (moka_save : bool) (lv : option val) (f : pyfun)
    (args : list val) (kw : kwargs) :
  reachable list_sort h ->
  h !! m = Some (ODict es moka_save lv) ->
  moka_save = false /\
  (forall v h',
     Dict.map m (Some (f, args)) kw h = Ok (v, h') \/
     Dict.keep m (Some (f, args)) kw h = Ok (v, h') \/
     Dict.rem m (Some (f, args)) kw h = Ok (v, h') ->
     v = VRef (length h) /\ length h <> m /\
     h' !! m = Some (ODict es moka_save lv) /\
     exists es', keys_wf es' = true /\ h' = h ++ [ODict es' false None]) /\
  (Forall (fun e => exists z, f h (fst e :: snd e :: args) kw = Ok z) es ->
   Dict.keep m (Some (f, args)) kw h
     = Ok (VRef (length h),
           h ++ [ODict (filter (fun e =>
                   holds2 (fun x y => f h (x :: y :: args) kw) h e = true) es)
                   false None]) /\
   Dict.rem m (Some (f, args)) kw h
     = Ok (VRef (length h),
           h ++ [ODict (filter (fun e =>
                   fails2 (fun x y => f h (x :: y :: args) kw) h e = true) es)
                   false None])) /\
  (forall ps,
     Forall2 (fun e q => f h (fst e :: snd e :: args) kw = Ok (pair_val q))
       es ps ->
     forallb (fun e => hashable (fst e)) ps = true ->
     exists es',
       update_pairs ps [] = Ok es' /\
       Dict.map m (Some (f, args)) kw h
         = Ok (VRef (length h), h ++ [ODict es' false None])).
Proof.
  intros Hreach Hm.
  pose proof (reachable_wf list_sort h Hreach) as Hwf.
  destruct (heap_wf_lookup h m _ Hwf Hm) as [Hes ->].
  pose proof (lookup_lt_Some _ _ _ Hm) as Hlt.
  destruct (Dict_transforms_by_flag h m es false lv f args kw Hm)
    as (Hmap & Hkeep & Hrem).
  simpl in Hmap, Hkeep, Hrem.
  split; [reflexivity|]. split; [|split].
  - intros v h' Hop.
    assert (Hinit : exists arg, Dict.__init__ arg [] h = Ok (v, h')).
    { unfold Dict.map, Dict.keep, Dict.rem, Dict._moka_assign in Hop.
      simpl in Hop.
      rewrite (entries_of_lookup h m es false lv Hm), Hm in Hop.
      simpl in Hop. destruct Hop as [H|[H|H]]; eauto. }
    destruct Hinit as [arg Hinit].
    apply Dict_init_shape in Hinit as (es' & Hes' & -> & ->).
    split; [reflexivity|]. split; [lia|]. split; [|eauto].
    rewrite lookup_app_l by exact Hlt. exact Hm.
  - intros Hret.
    rewrite Hkeep, Hrem.
    rewrite !(gen_filter2_verdict _ (fun h x y => f h (x :: y :: args) kw)
                h es [] Hret).
    rewrite !update_pairs_fresh by (apply keys_wf_filter, Hes).
    simpl. auto.
  - intros ps Hps Hhash.
    destruct (update_pairs_total ps [] Hhash) as [es' Hes'].
    exists es'. split; [exact Hes'|].
    rewrite Hmap.
    rewrite (gen_map2_Forall2 (fun h x y => f h (x :: y :: args) kw) h es
               (pair_val <$> ps) []).
    + rewrite update_items_pairs, Hes'. reflexivity.
    + clear -Hps. induction Hps; simpl; constructor; auto.
Qed.

(** [M = Dict(a=1, b=-2)]: [M.keep(lambda k, v: v > 0)] is a new
    [{'a': 1}]. *)
Lemma Dict_transforms_copy_example :
  reachable sort_ints
    [ODict [(VStr "a", VInt 1); (VStr "b", VInt (-2))] false None] /\
  Dict.keep 0%nat (Some (positive_value, [])) []
    [ODict [(VStr "a", VInt 1); (VStr "b", VInt (-2))] false None]
    = Ok (VRef 1%nat,
          [ODict [(VStr "a", VInt 1); (VStr "b", VInt (-2))] false None;
           ODict [(VStr "a", VInt 1)] false None]).
Proof.
  assert (Hreach : reachable sort_ints
    [ODict [(VStr "a", VInt 1); (VStr "b", VInt (-2))] false None]).
  { eapply reachable_step; [apply reachable_start|].
    eapply (step_Dict_new sort_ints []
              [("a"%string, VInt 1); ("b"%string, VInt (-2))] []).
    reflexivity. }
  split; [exact Hreach|].
  refine (proj1 (proj1 (proj2 (proj2
    (Dict_transforms_copy sort_ints _ 0%nat _ false None
       positive_value [] [] Hreach eq_refl))) _)).
  repeat constructor; simpl; eauto.
Defined.

(** * More of the module *)

(** ** List: chains of transforms *)

(** X1. [S.map(f).map(g)] leaves in [S] the values [g(f(x))], in the
    order of the items [x], and returns [S]: the second [map] runs on the
    object the first one wrote and returned. *)
Theorem List_map_map (h : heap) (self : addr) (l ys zs : list val)
    (lv : option val) (f g : pyfun) (fargs gargs : list val)
    (fkw gkw : kwargs) :
  h !! self = Some (OList l lv) ->
  Forall2 (fun x y => bound f fargs fkw h x = Ok y) l ys ->
  Forall2 (fun y z =>
             bound g gargs gkw (<[self := OList ys lv]> h) y = Ok z) ys zs ->
  (r <- List.map self (Some (f, fargs)) fkw h ;;
   send (fst r) (fun a => List.map a (Some (g, gargs)) gkw) (snd r))
  = Ok (VRef self, <[self := OList zs lv]> h).
Proof.
  intros Hself Hys Hzs.
  pose proof (lookup_lt_Some _ _ _ Hself) as Hlt.
  assert (Hmap : forall h0 l0 ys0 f0 args0 kw0,
    h0 !! self = Some (OList l0 lv) ->
    Forall2 (fun x y => bound f0 args0 kw0 h0 x = Ok y) l0 ys0 ->
    List.map self (Some (f0, args0)) kw0 h0
      = Ok (VRef self, <[self := OList ys0 lv]> h0)).
  { intros h0 l0 ys0 f0 args0 kw0 H0 HF.
    destruct (_f_total f0 args0 kw0) as [c Hc].
    unfold List.map, List._moka_assign.
    rewrite Hc, (items_of_lookup h0 self l0 lv H0). simpl.
    rewrite (gen_map_Forall2 h0 _ l0 ys0 HF c (bound_agrees _ _ _ c h0 Hc)).
    simpl. rewrite H0. reflexivity. }
  rewrite (Hmap h l ys f fargs fkw Hself Hys). simpl.
  rewrite (Hmap _ ys zs g gargs gkw); [|apply list_lookup_insert_eq, Hlt|exact Hzs].
  rewrite list_insert_insert_eq. reflexivity.
Qed.

(** [[1, 2].map(+1).map(+1)] is [[3, 4]]. *)
Lemma List_map_map_incr :
  (r <- List.map 0%nat (Some (incr, [])) [] [OList [VInt 1; VInt 2] None] ;;
   send (fst r) (fun a => List.map a (Some (incr, [])) []) (snd r))
  = Ok (VRef 0%nat, [OList [VInt 3; VInt 4] None]).
Proof.
  refine (List_map_map [OList [VInt 1; VInt 2] None] 0%nat _
            [VInt 2; VInt 3] [VInt 3; VInt 4] None incr incr [] [] [] []
            eq_refl _ _); repeat constructor.
Defined.

(** X2. [S.clone()] is a new [List] with the items of [S] and no
    [last_value]; a transform run on the clone writes into the clone, and
    [S] keeps its items and its [last_value]. *)
Theorem List_clone_independent (h : heap) (self : addr) (l ys : list val)
    (lv : option val) (f : pyfun) (args : list val) (kw : kwargs) :
  h !! self = Some (OList l lv) ->
  List.clone self h = Ok (VRef (length h), h ++ [OList l None]) /\
  length h <> self /\
  (Forall2 (fun x y => bound f args kw (h ++ [OList l None]) x = Ok y) l ys ->
   (r <- List.clone self h ;;
    send (fst r) (fun a => List.map a (Some (f, args)) kw) (snd r))
   = Ok (VRef (length h), h ++ [OList ys None]) /\
   (h ++ [OList ys None]) !! self = Some (OList l lv)).
Proof.
  intros Hself.
  pose proof (lookup_lt_Some _ _ _ Hself) as Hlt.
  assert (Hclone : List.clone self h
                   = Ok (VRef (length h), h ++ [OList l None])).
  { unfold List.clone, List.new.
    rewrite (items_of_lookup h self l lv Hself). reflexivity. }
  split; [exact Hclone|]. split; [lia|].
  intros Hys. rewrite Hclone. simpl.
  destruct (_f_total f args kw) as [c Hc].
  unfold List.map, List._moka_assign.
  rewrite Hc, (items_of_lookup _ _ l None (lookup_new h _)). simpl.
  rewrite (gen_map_Forall2 _ _ l ys Hys c (bound_agrees _ _ _ c _ Hc)).
  simpl. rewrite lookup_new.
  replace (length h) with (length h + 0)%nat at 2 by lia.
  rewrite insert_app_r. simpl. split; [reflexivity|].
  rewrite lookup_app_l by exact Hlt. exact Hself.
Qed.

(** [S = [1, 2]]: [S.clone().map(+1)] is a new [[2, 3]]. *)
Lemma List_clone_independent_incr :
  (r <- List.clone 0%nat [OList [VInt 1; VInt 2] None] ;;
   send (fst r) (fun a => List.map a (Some (incr, [])) []) (snd r))
  = Ok (VRef 1%nat, [OList [VInt 1; VInt 2] None;
                     OList [VInt 2; VInt 3] None]).
Proof.
  refine (proj1 (proj2 (proj2
    (List_clone_independent [OList [VInt 1; VInt 2] None] 0%nat _
       [VInt 2; VInt 3] None incr [] [] eq_refl)) _)).
  repeat constructor.
Defined.

(** X3. [S.tee(f, ...)] makes the call [S.do(f, ...)] makes. When that
    call returns [v] and leaves the store as it was (a callback that
    looks, prints or checks, and writes to no [List] and no [Dict]),
    [tee] returns [S] itself with [v] in [S.last_value], and that
    attribute is all it has written: the items of [S] are as they were.
    When the call raises, [tee] raises the same. A callback that writes,
    as in [S.tee(list.append, 3)], is not covered. *)
Theorem List_tee_keeps_last_value (h : heap) (self : addr) (l : list val)
    (lv : option val) (sargs : star_args) (kw : kwargs) :
  h !! self = Some (OList l lv) ->
  (forall v,
     List.do self sargs kw h = Ok (v, h) ->
     List.tee self sargs kw h
       = Ok (VRef self, <[self := OList l (Some v)]> h)) /\
  (forall e,
     List.do self sargs kw h = Raise e ->
     List.tee self sargs kw h = Raise e).
Proof.
  intros Hself. unfold List.do, List.tee.
  destruct (List._f sargs kw) as [c|e0]; simpl.
  - destruct (snd (call c h (VRef self))) as [v0|e0]; simpl.
    + rewrite Hself. split; [|discriminate]. intros v [= <-]. reflexivity.
    + split; [discriminate|]. intros e [= <-]. reflexivity.
  - split; [discriminate|]. intros e [= <-]. reflexivity.
Qed.

(** [[1, 2].tee(len)] is the list, with 2 in [last_value]. *)
Lemma List_tee_keeps_last_value_len :
  List.tee 0%nat (Some (len_fn, [])) [] [OList [VInt 1; VInt 2] None]
    = Ok (VRef 0%nat, [OList [VInt 1; VInt 2] (Some (VInt 2))]).
Proof.
  exact (proj1 (List_tee_keeps_last_value [OList [VInt 1; VInt 2] None]
                  0%nat _ None (Some (len_fn, [])) [] eq_refl)
           (VInt 2) eq_refl).
Defined.

(** ** List: where the loops stop *)

Section MoreLoops.

Variable h : heap.
Variable p : val -> result val.

Lemma loop_all_forallb (l : list val) :
  Forall (fun x => exists y, p x = Ok y) l ->
  forall c, agrees h p c ->
  loop_all c h l = Ok (forallb (holds p h) l).
Proof.
  induction 1 as [|x l [y Hx] _ IH]; intros c Hc; simpl; [reflexivity|].
  destruct (agrees_call h p c x Hc) as (c' & -> & Hc').
  unfold holds at 1. rewrite Hx. simpl.
  destruct (truthy h y); [apply IH, Hc'|reflexivity].
Qed.

Lemma loop_some_existsb (l : list val) :
  Forall (fun x => exists y, p x = Ok y) l ->
  forall c, agrees h p c ->
  loop_some c h l = Ok (existsb (holds p h) l).
Proof.
  induction 1 as [|x l [y Hx] _ IH]; intros c Hc; simpl; [reflexivity|].
  destruct (agrees_call h p c x Hc) as (c' & -> & Hc').
  unfold holds at 1. rewrite Hx. simpl.
  destruct (truthy h y); [reflexivity|apply IH, Hc'].
Qed.

Lemma loop_all_first_failure (l1 l2 : list val) (x : val) :
  Forall (fun z => holds p h z = true) l1 ->
  fails p h x = true ->
  forall c, agrees h p c -> loop_all c h (l1 ++ x :: l2) = Ok false.
Proof.
  intros H1 Hx. induction H1 as [|z l1 Hz _ IH]; intros c Hc; simpl.
  - destruct (agrees_call h p c x Hc) as (c' & -> & Hc').
    unfold fails in Hx. destruct (p x) as [y|e]; [|discriminate].
    simpl. apply negb_true_iff in Hx. rewrite Hx. reflexivity.
  - destruct (agrees_call h p c z Hc) as (c' & -> & Hc').
    unfold holds in Hz. destruct (p z) as [y|e]; [|discriminate].
    simpl. rewrite Hz. apply IH, Hc'.
Qed.

Lemma loop_some_first (l1 l2 : list val) (x : val) :
  Forall (fun z => fails p h z = true) l1 ->
  holds p h x = true ->
  forall c, agrees h p c -> loop_some c h (l1 ++ x :: l2) = Ok true.
Proof.
  intros H1 Hx. induction H1 as [|z l1 Hz _ IH]; intros c Hc; simpl.
  - destruct (agrees_call h p c x Hc) as (c' & -> & Hc').
    unfold holds in Hx. destruct (p x) as [y|e]; [|discriminate].
    simpl. rewrite Hx. reflexivity.
  - destruct (agrees_call h p c z Hc) as (c' & -> & Hc').
    unfold fails in Hz. destruct (p z) as [y|e]; [|discriminate].
    simpl. apply negb_true_iff in Hz. rewrite Hz. apply IH, Hc'.
Qed.

Lemma gen_map_raise (l1 l2 : list val) (x : val) (e : exn) :
  Forall (fun z => exists y, p z = Ok y) l1 ->
  p x = Raise e ->
  forall c, agrees h p c -> gen_map c h (l1 ++ x :: l2) = Raise e.
Proof.
  intros H1 Hx. induction H1 as [|z l1 [y Hz] _ IH]; intros c Hc; simpl.
  - destruct (agrees_call h p c x Hc) as (c' & -> & Hc').
    rewrite Hx. reflexivity.
  - destruct (agrees_call h p c z Hc) as (c' & -> & Hc').
    rewrite Hz. simpl. rewrite (IH c' Hc'). reflexivity.
Qed.

Lemma gen_filter_raise (sense : bool) (l1 l2 : list val) (x : val)
    (e : exn) :
  Forall (fun z => exists y, p z = Ok y) l1 ->
  p x = Raise e ->
  forall c, agrees h p c -> gen_filter sense c h (l1 ++ x :: l2) = Raise e.
Proof.
  intros H1 Hx. induction H1 as [|z l1 [y Hz] _ IH]; intros c Hc; simpl.
  - destruct (agrees_call h p c x Hc) as (c' & -> & Hc').
    rewrite Hx. reflexivity.
  - destruct (agrees_call h p c z Hc) as (c' & -> & Hc').
    rewrite Hz. simpl. rewrite (IH c' Hc'). reflexivity.
Qed.

Lemma filter_fails_not_holds (l : list val) :
  Forall (fun x => exists y, p x = Ok y) l ->
  filter (fun x => fails p h x = true) l
  = filter (fun x => ~ holds p h x = true) l.
Proof.
  induction 1 as [|x l [y Hx] _ IH]; [reflexivity|].
  rewrite !filter_cons, IH.
  unfold fails, holds. rewrite Hx.
  destruct (truthy h y); simpl;
    repeat (destruct (decide _) as [?|?]); try reflexivity;
    try congruence; try contradiction.
Qed.

End MoreLoops.

(** X4. When [pred] returns on every item, [S.all(pred)] is true exactly
    when [pred] holds on all of them, [S.some(pred)] (and its alias
    [has]) exactly when it holds on one of them, and [S.some(pred)] is
    the negation of [S.all(not pred)]. None of them writes to the
    store. *)
Theorem List_some_all_dual (h : heap) (self : addr) (l : list val)
    (lv : option val) (pred : pyfun) (args : list val) (kw : kwargs) :
  h !! self = Some (OList l lv) ->
  Forall (fun x => exists y, bound pred args kw h x = Ok y) l ->
  List.all self (Some (pred, args)) kw h
    = Ok (VBool (forallb (holds (bound pred args kw h) h) l), h) /\
  List.some self (Some (pred, args)) kw h
    = Ok (VBool (existsb (holds (bound pred args kw h) h) l), h) /\
  List.has self (Some (pred, args)) kw h
    = List.some self (Some (pred, args)) kw h /\
  List.all self (Some (not_ pred, args)) kw h
    = Ok (VBool (negb (existsb (holds (bound pred args kw h) h) l)), h).
Proof.
  intros Hself Hret.
  destruct (_f_total pred args kw) as [c Hc].
  destruct (_f_total (not_ pred) args kw) as [c' Hc'].
  assert (Hret' : Forall
    (fun x => exists y, bound (not_ pred) args kw h x = Ok y) l).
  { eapply Forall_impl; [|exact Hret]. intros x [y Hy]. simpl.
    rewrite bound_not_, Hy. simpl. eauto. }
  assert (Hdual : forallb (holds (bound (not_ pred) args kw h) h) l
                  = negb (existsb (holds (bound pred args kw h) h) l)).
  { clear -Hret. induction Hret as [|x l [y Hy] _ IH]; [reflexivity|].
    simpl. rewrite IH, (holds_not_ pred args kw h x y Hy).
    unfold holds at 2. rewrite Hy.
    destruct (truthy h y); reflexivity. }
  unfold List.has, List.all, List.some.
  rewrite Hc, Hc', (items_of_lookup h self l lv Hself). simpl.
  rewrite (loop_all_forallb h _ l Hret c (bound_agrees _ _ _ c h Hc)).
  rewrite (loop_some_existsb h _ l Hret c (bound_agrees _ _ _ c h Hc)).
  rewrite (loop_all_forallb h _ l Hret' c' (bound_agrees _ _ _ c' h Hc')).
  rewrite Hdual. auto.
Qed.

(** On [[-1, 3]] with [lambda x: x > 0]: some, not all. *)
Lemma List_some_all_dual_positive :
  List.all 0%nat (Some (positive, [])) [] [OList [VInt (-1); VInt 3] None]
    = Ok (VBool false, [OList [VInt (-1); VInt 3] None]) /\
  List.some 0%nat (Some (positive, [])) [] [OList [VInt (-1); VInt 3] None]
    = Ok (VBool true, [OList [VInt (-1); VInt 3] None]).
Proof.
  assert (Hret : Forall
    (fun x => exists y,
       bound positive [] [] [OList [VInt (-1); VInt 3] None] x = Ok y)
    [VInt (-1); VInt 3]).
  { repeat constructor; simpl; eauto. }
  destruct (List_some_all_dual [OList [VInt (-1); VInt 3] None] 0%nat _
              None positive [] [] eq_refl Hret) as (Hall & Hsome & _).
  split; [exact Hall|exact Hsome].
Defined.

(** X5. [S.all(pred)] stops at the first item on which [pred] fails and
    [S.some(pred)] at the first on which it holds: the answer is
    [False], respectively [True], whatever [pred] would do on the items
    that follow, raising included. *)
Theorem List_all_some_short_circuit (h : heap) (self : addr)
    (l1 l2 : list val) (x : val) (lv : option val) (pred : pyfun)
    (args : list val) (kw : kwargs) :
  h !! self = Some (OList (l1 ++ x :: l2) lv) ->
  (Forall (fun z => holds (bound pred args kw h) h z = true) l1 ->
   fails (bound pred args kw h) h x = true ->
   List.all self (Some (pred, args)) kw h = Ok (VBool false, h)) /\
  (Forall (fun z => fails (bound pred args kw h) h z = true) l1 ->
   holds (bound pred args kw h) h x = true ->
   List.some self (Some (pred, args)) kw h = Ok (VBool true, h)).
Proof.
  intros Hself.
  destruct (_f_total pred args kw) as [c Hc].
  pose proof (bound_agrees pred args kw c h Hc) as Hag.
  unfold List.all, List.some.
  rewrite Hc, (items_of_lookup h self _ lv Hself). simpl.
  split; intros H1 Hx.
  - rewrite (loop_all_first_failure h _ l1 l2 x H1 Hx c Hag). reflexivity.
  - rewrite (loop_some_first h _ l1 l2 x H1 Hx c Hag). reflexivity.
Qed.

(** [[3, None].some(lambda x: x > 0)] is [True]: [None > 0] is never
    asked. *)
Lemma List_all_some_short_circuit_example :
  List.some 0%nat (Some (positive, [])) [] [OList [VInt 3; VNone] None]
    = Ok (VBool true, [OList [VInt 3; VNone] None]) /\
  bound positive [] [] [OList [VInt 3; VNone] None] VNone = Raise TypeError.
Proof.
  split; [|reflexivity].
  refine (proj2 (List_all_some_short_circuit [OList [VInt 3; VNone] None]
                   0%nat [] [VNone] (VInt 3) None positive [] [] eq_refl)
            _ _).
  - constructor.
  - reflexivity.
Defined.

(** X6. When the callback, having returned on the items before, raises
    on an item one of [TypeError], [ValueError], [AttributeError],
    [ZeroDivisionError] or [OverflowError], then [map], [keep] and [rem]
    raise that exception. ([StopIteration] is not covered: see [exn].) *)
Theorem List_first_error (h : heap) (self : addr) (l1 l2 : list val)
    (x : val) (lv : option val) (f : pyfun) (args : list val)
    (kw : kwargs) (e : exn) :
  h !! self = Some (OList (l1 ++ x :: l2) lv) ->
  Forall (fun z => exists y, bound f args kw h z = Ok y) l1 ->
  bound f args kw h x = Raise e ->
  List.map self (Some (f, args)) kw h = Raise e /\
  List.keep self (Some (f, args)) kw h = Raise e /\
  List.rem self (Some (f, args)) kw h = Raise e.
Proof.
  intros Hself H1 Hx.
  destruct (_f_total f args kw) as [c Hc].
  pose proof (bound_agrees f args kw c h Hc) as Hag.
  unfold List.map, List.keep, List.rem, List._moka_assign.
  rewrite Hc, (items_of_lookup h self _ lv Hself). simpl.
  rewrite (gen_map_raise h _ l1 l2 x e H1 Hx c Hag).
  rewrite !(gen_filter_raise h _ _ l1 l2 x e H1 Hx c Hag).
  auto.
Qed.

(** [[4, 0, 1].map(divide, 8, _)] raises [ZeroDivisionError]. *)
Lemma List_first_error_divide :
  List.map 0%nat (Some (divide, [VInt 8; VBlank])) []
    [OList [VInt 4; VInt 0; VInt 1] None] = Raise ZeroDivisionError.
Proof.
  refine (proj1 (List_first_error [OList [VInt 4; VInt 0; VInt 1] None]
                   0%nat [VInt 4] [VInt 1] (VInt 0) None divide
                   [VInt 8; VBlank] [] ZeroDivisionError eq_refl _ _)).
  - repeat constructor. simpl. eauto.
  - reflexivity.
Defined.

(** X7. [keep] and [rem] split the items of [S]: when [pred] returns on
    every item, what [S.keep(pred)] retains and what [S.rem(pred)]
    retains are, together, the items of [S], each once. *)
Theorem List_keep_rem_partition (h : heap) (self : addr) (l : list val)
    (lv : option val) (pred : pyfun) (args : list val) (kw : kwargs) :
  h !! self = Some (OList l lv) ->
  Forall (fun x => exists y, bound pred args kw h x = Ok y) l ->
  exists ks rs,
    List.keep self (Some (pred, args)) kw h
      = Ok (VRef self, <[self := OList ks lv]> h) /\
    List.rem self (Some (pred, args)) kw h
      = Ok (VRef self, <[self := OList rs lv]> h) /\
    Permutation (ks ++ rs) l /\
    (length ks + length rs = length l)%nat.
Proof.
  intros Hself Hret.
  destruct (_f_total pred args kw) as [c Hc].
  pose proof (bound_agrees pred args kw c h Hc) as Hag.
  exists (filter (fun x => holds (bound pred args kw h) h x = true) l),
         (filter (fun x => fails (bound pred args kw h) h x = true) l).
  unfold List.keep, List.rem, List._moka_assign.
  rewrite Hc, (items_of_lookup h self l lv Hself). simpl.
  rewrite !(gen_filter_verdict h _ _ l Hret c Hag). simpl.
  rewrite Hself.
  split; [reflexivity|]. split; [reflexivity|].
  rewrite (filter_fails_not_holds h _ l Hret).
  pose proof (filter_app_complement
                (fun x => holds (bound pred args kw h) h x = true) l) as HP.
  split; [exact HP|].
  rewrite <- length_app. apply Permutation_length, HP.
Qed.

(** [[-1, 3, 5]] splits into [[3, 5]] and [[-1]]. *)
Lemma List_keep_rem_partition_positive :
  exists ks rs,
    List.keep 0%nat (Some (positive, [])) []
      [OList [VInt (-1); VInt 3; VInt 5] None]
      = Ok (VRef 0%nat, <[0%nat := OList ks None]>
                          [OList [VInt (-1); VInt 3; VInt 5] None]) /\
    List.rem 0%nat (Some (positive, [])) []
      [OList [VInt (-1); VInt 3; VInt 5] None]
      = Ok (VRef 0%nat, <[0%nat := OList rs None]>
                          [OList [VInt (-1); VInt 3; VInt 5] None]) /\
    Permutation (ks ++ rs) [VInt (-1); VInt 3; VInt 5] /\
    (length ks + length rs = 3)%nat.
Proof.
  refine (List_keep_rem_partition [OList [VInt (-1); VInt 3; VInt 5] None]
            0%nat _ None positive [] [] eq_refl _).
  repeat constructor; simpl; eauto.
Defined.

(** X8. On a [List] without items no callback is ever called: whatever
    the callback, [map], [keep] and [rem] return the list as it is,
    [find] is [None], [all] and [empty(pred)] are [True], [some] is
    [False] and [count(pred)] is 0. *)
Theorem List_no_items (h : heap) (self : addr) (lv : option val)
    (f : pyfun) (args : list val) (kw : kwargs) :
  h !! self = Some (OList [] lv) ->
  List.map self (Some (f, args)) kw h = Ok (VRef self, h) /\
  List.keep self (Some (f, args)) kw h = Ok (VRef self, h) /\
  List.rem self (Some (f, args)) kw h = Ok (VRef self, h) /\
  List.find self (Some (f, args)) kw h = Ok (VNone, h) /\
  List.all self (Some (f, args)) kw h = Ok (VBool true, h) /\
  List.some self (Some (f, args)) kw h = Ok (VBool false, h) /\
  List.empty self (Some (f, args)) kw h = Ok (VBool true, h) /\
  value_of (List.count self (Some (f, args)) kw h) = Ok (VInt 0).
Proof.
  intros Hself.
  destruct (_f_total f args kw) as [c Hc].
  assert (Hcount : value_of (List.count self (Some (f, args)) kw h)
                   = Ok (VInt 0)).
  { unfold List.count, List.clone, List.new. cbn [no_args andb].
    rewrite (items_of_lookup h self [] lv Hself).
    cbn [bind alloc fst snd send].
    unfold List.keep, List._moka_assign.
    rewrite Hc, (items_of_lookup _ _ [] None (lookup_new h _)).
    cbn [bind gen_filter]. rewrite lookup_new.
    cbn [bind fst snd send len].
    rewrite list_lookup_insert_eq by (rewrite length_app; simpl; lia).
    reflexivity. }
  unfold List.map, List.keep, List.rem, List.find, List.all, List.some,
    List.empty, List._moka_assign.
  cbn [no_args andb].
  rewrite Hc, (items_of_lookup h self [] lv Hself). simpl.
  rewrite Hself, (list_insert_id h self _ Hself).
  repeat (split; [reflexivity|]). exact Hcount.
Qed.

(** On [List([])], with a callback that raises on anything but
    integers. *)
Lemma List_no_items_example :
  List.map 0%nat (Some (incr, [VNone])) [] [OList [] None]
    = Ok (VRef 0%nat, [OList [] None]) /\
  List.find 0%nat (Some (incr, [VNone])) [] [OList [] None]
    = Ok (VNone, [OList [] None]).
Proof.
  destruct (List_no_items [OList [] None] 0%nat None incr [VNone] [] eq_refl)
    as (Hmap & _ & _ & Hfind & _).
  split; [exact Hmap|exact Hfind].
Defined.

(** ** The binder with several placeholders *)

(** X9. Of several placeholders among the bound arguments only the
    leftmost is filled: the callable returns [f] of the bound arguments
    with the runtime value at the place of the first placeholder, and
    every further placeholder is handed to [f] as it is. *)
Theorem binder_fills_first_placeholder (f : pyfun) (pre post : list val)
    (kw : kwargs) :
  Blank_in pre = false ->
  exists c,
    List._f (Some (f, pre ++ VBlank :: post)) kw = Ok c /\
    forall h x,
      snd (call c h x) = f h (pre ++ x :: post) kw /\
      forall h' y,
        snd (call (fst (call c h x)) h' y) = f h' (pre ++ y :: post) kw.
Proof.
  intros Hpre. unfold List._f.
  assert (Hnil : is_nil (pre ++ VBlank :: post) && is_nil kw = false).
  { destruct pre; reflexivity. }
  rewrite Hnil, Blank_in_middle, (index_Blank_split pre post Hpre). simpl.
  eexists. split; [reflexivity|].
  assert (Hcall : forall h x,
    snd (call (Tmp f (pre ++ VBlank :: post) (length pre) kw) h x)
    = f h (pre ++ x :: post) kw).
  { intros h x. simpl. rewrite insert_middle. reflexivity. }
  intros h x. split; [apply Hcall|].
  intros h' y. rewrite call_again. apply Hcall.
Qed.

(** [bind(add, _, _)(x)] is [add(x, _)]. *)
Lemma binder_fills_first_placeholder_twice :
  exists c,
    List._f (Some (add, [VBlank; VBlank])) [] = Ok c /\
    forall h x, snd (call c h x) = add h [x; VBlank] [].
Proof.
  destruct (binder_fills_first_placeholder add [] [VBlank] [] eq_refl)
    as (c & Hc & Hcall).
  exists c. split; [exact Hc|]. intros h x. apply Hcall.
Defined.

(** ** List: the wrapped builtin methods, one by one *)

Lemma List_proxy_run (list_sort : builtin) (name : string) (m : builtin)
    (h : heap) (a : addr) (l l' : list val) (lv : option val)
    (args : list val) (kw : kwargs) :
  h !! a = Some (OList l lv) ->
  getattr_list list_sort name = Ok m ->
  m (h ++ [OList l None]) l args kw = Ok l' ->
  List._proxy list_sort name a args kw h
    = Ok (VRef (length h), h ++ [OList l' None]).
Proof.
  intros Ha Hm Hl'. unfold List._proxy.
  rewrite (items_of_lookup h a l lv Ha). simpl.
  rewrite Hm. simpl. rewrite Hl'. simpl.
  replace (length h) with (length h + 0)%nat at 2 by lia.
  rewrite insert_app_r. reflexivity.
Qed.

(** X10. [A.reverse().reverse()] holds the items of [A] in their order
    again, in a third object: each wrapped call added one object to the
    store and [A] was not written. *)
Theorem List_reverse_twice (list_sort : builtin) (h : heap) (a : addr)
    (l : list val) (lv : option val) :
  h !! a = Some (OList l lv) ->
  (r <- List.reverse list_sort a [] [] h ;;
   send (fst r) (fun b => List.reverse list_sort b [] []) (snd r))
  = Ok (VRef (S (length h)), h ++ [OList (rev l) None; OList l None]).
Proof.
  intros Ha. unfold List.reverse.
  rewrite (List_proxy_run list_sort "reverse" list_reverse h a l (rev l) lv
             [] [] Ha eq_refl eq_refl).
  simpl.
  rewrite (List_proxy_run list_sort "reverse" list_reverse _ (length h)
             (rev l) (rev (rev l)) None [] [] (lookup_new h _) eq_refl eq_refl).
  rewrite rev_involutive, length_app, <- app_assoc. simpl.
  replace (length h + 1)%nat with (S (length h)) by lia. reflexivity.
Qed.

(** [A = [1, 2]]: [A.reverse().reverse()] is a new [[1, 2]]. *)
Lemma List_reverse_twice_example :
  (r <- List.reverse sort_ints 0%nat [] [] [OList [VInt 1; VInt 2] None] ;;
   send (fst r) (fun b => List.reverse sort_ints b [] []) (snd r))
  = Ok (VRef 2%nat, [OList [VInt 1; VInt 2] None;
                     OList [VInt 2; VInt 1] None;
                     OList [VInt 1; VInt 2] None]).
Proof.
  exact (List_reverse_twice sort_ints [OList [VInt 1; VInt 2] None] 0%nat
           _ None eq_refl).
Defined.

Lemma insert_at_length (i : Z) (x : val) (l : list val) :
  length (insert_at i x l) = S (length l).
Proof.
  unfold insert_at. rewrite length_app. simpl.
  rewrite length_take, length_drop.
  destruct (i <? 0) eqn:Hi; lia.
Qed.

(** X11. [A.insert(i, x)], for an integer [i] that fits a C [ssize_t]
    (from [-sys.maxsize - 1] to [sys.maxsize]), does not raise: the new
    list has one item more than [A]; an index at or past the end puts
    [x] last, as [append] does, an index at or before minus the length
    puts it first, and a negative index counts from the end. For any
    other integer it raises [OverflowError]. *)
Theorem List_insert_clamps (list_sort : builtin) (h : heap) (a : addr)
    (l : list val) (lv : option val) (i : Z) (x : val) :
  h !! a = Some (OList l lv) ->
  (- maxsize - 1 <= i <= maxsize ->
   exists l',
     List.insert list_sort a [VInt i; x] [] h
       = Ok (VRef (length h), h ++ [OList l' None]) /\
     length l' = S (length l) /\
     (Z.of_nat (length l) <= i -> l' = l ++ [x]) /\
     (i <= - Z.of_nat (length l) -> l' = x :: l) /\
     (0 <= i <= Z.of_nat (length l) ->
      l' = take (Z.to_nat i) l ++ x :: drop (Z.to_nat i) l) /\
     (- Z.of_nat (length l) <= i < 0 ->
      l' = take (Z.to_nat (i + Z.of_nat (length l))) l
           ++ x :: drop (Z.to_nat (i + Z.of_nat (length l))) l)) /\
  (i < - maxsize - 1 \/ maxsize < i ->
   List.insert list_sort a [VInt i; x] [] h = Raise OverflowError).
Proof.
  intros Ha. split.
  - intros Hfit. exists (insert_at i x l).
    split.
    { unfold List.insert.
      apply (List_proxy_run list_sort "insert" list_insert h a l _ lv
               [VInt i; x] [] Ha eq_refl).
      unfold list_insert, as_ssize_t.
      replace ((- maxsize - 1 <=? i) && (i <=? maxsize)) with true;
        [reflexivity|].
      symmetry. apply andb_true_iff. split; apply Z.leb_le; lia. }
    split; [apply insert_at_length|].
    unfold insert_at.
    repeat split; intros Hi.
    + destruct (i <? 0) eqn:E; [lia|].
      rewrite Z.min_r by lia. rewrite Nat2Z.id.
      rewrite take_ge, drop_ge by lia. reflexivity.
    + destruct (i <? 0) eqn:E.
      * rewrite Z.max_l by lia. reflexivity.
      * assert (i = 0) as -> by lia. rewrite Z.min_l by lia. reflexivity.
    + destruct (i <? 0) eqn:E; [lia|].
      rewrite Z.min_l by lia. reflexivity.
    + destruct (i <? 0) eqn:E; [|lia].
      rewrite Z.max_r by lia. reflexivity.
  - intros Hout. unfold List.insert, List._proxy.
    rewrite (items_of_lookup h a l lv Ha). simpl.
    unfold as_ssize_t.
    replace ((- maxsize - 1 <=? i) && (i <=? maxsize)) with false;
      [reflexivity|].
    symmetry. apply andb_false_iff.
    destruct Hout; [left|right]; apply Z.leb_gt; lia.
Qed.

(** [[1, 2].insert(9, 0)] is [[1, 2, 0]], [[1, 2].insert(-9, 0)] is
    [[0, 1, 2]], and [[1, 2].insert(2 ** 64, 0)] raises
    [OverflowError]. *)
Lemma List_insert_clamps_example :
  List.insert sort_ints 0%nat [VInt 9; VInt 0] []
    [OList [VInt 1; VInt 2] None]
    = Ok (VRef 1%nat, [OList [VInt 1; VInt 2] None;
                       OList [VInt 1; VInt 2; VInt 0] None]) /\
  List.insert sort_ints 0%nat [VInt (-9); VInt 0] []
    [OList [VInt 1; VInt 2] None]
    = Ok (VRef 1%nat, [OList [VInt 1; VInt 2] None;
                       OList [VInt 0; VInt 1; VInt 2] None]) /\
  List.insert sort_ints 0%nat [VInt (2 ^ 64); VInt 0] []
    [OList [VInt 1; VInt 2] None]
    = Raise OverflowError.
Proof.
  split; [|split].
  - destruct (proj1 (List_insert_clamps sort_ints
                       [OList [VInt 1; VInt 2] None]
                       0%nat _ None 9 (VInt 0) eq_refl))
      as (l' & Hrun & _ & Hend & _); [unfold maxsize; lia|].
    rewrite Hrun, Hend by (simpl; lia). reflexivity.
  - destruct (proj1 (List_insert_clamps sort_ints
                       [OList [VInt 1; VInt 2] None]
                       0%nat _ None (-9) (VInt 0) eq_refl))
      as (l' & Hrun & _ & _ & Hfront & _); [unfold maxsize; lia|].
    rewrite Hrun, Hfront by (simpl; lia). reflexivity.
  - apply (proj2 (List_insert_clamps sort_ints
                    [OList [VInt 1; VInt 2] None]
                    0%nat _ None (2 ^ 64) (VInt 0) eq_refl)).
    right. unfold maxsize. lia.
Defined.

(** X12. [A.append(x).count()] is one more than [A.count()], and
    [A.extend(B)] is a new list of the items of [A] followed by those of
    [B], for [B] a [List], even [A] itself; [A.extend(n)] for a number
    [n] raises [TypeError]. *)
Theorem List_append_extend (list_sort : builtin) (h : heap) (a : addr)
    (l : list val) (lv : option val) (x : val) :
  h !! a = Some (OList l lv) ->
  value_of (List.count a None [] h) = Ok (VInt (Z.of_nat (length l))) /\
  value_of (r <- List.append list_sort a [x] [] h ;;
            send (fst r) (fun b => List.count b None []) (snd r))
    = Ok (VInt (Z.of_nat (length l) + 1)) /\
  (forall b l2 lv2,
     h !! b = Some (OList l2 lv2) ->
     List.extend list_sort a [VRef b] [] h
       = Ok (VRef (length h), h ++ [OList (l ++ l2) None])) /\
  (forall n, List.extend list_sort a [VInt n] [] h = Raise TypeError).
Proof.
  intros Ha. pose proof (lookup_lt_Some _ _ _ Ha) as Hlt.
  split; [|split; [|split]].
  - unfold List.count. simpl. rewrite Ha. reflexivity.
  - unfold List.append.
    rewrite (List_proxy_run list_sort "append" list_append h a l (l ++ [x])
               lv [x] [] Ha eq_refl eq_refl).
    simpl. unfold List.count. simpl. rewrite lookup_new. simpl.
    rewrite length_app. simpl. do 2 f_equal. lia.
  - intros b l2 lv2 Hb. unfold List.extend.
    apply (List_proxy_run list_sort "extend" list_extend h a l _ lv
             [VRef b] [] Ha eq_refl).
    simpl. rewrite (lookup_app_l_Some _ _ _ _ Hb). reflexivity.
  - intros n. unfold List.extend, List._proxy.
    rewrite (items_of_lookup h a l lv Ha). reflexivity.
Qed.

(** [A = [1, 2]]: [A.extend(A)] is a new [[1, 2, 1, 2]]. *)
Lemma List_append_extend_example :
  List.extend sort_ints 0%nat [VRef 0%nat] [] [OList [VInt 1; VInt 2] None]
    = Ok (VRef 1%nat, [OList [VInt 1; VInt 2] None;
                       OList [VInt 1; VInt 2; VInt 1; VInt 2] None]).
Proof.
  exact (proj1 (proj2 (proj2
    (List_append_extend sort_ints [OList [VInt 1; VInt 2] None] 0%nat _
       None VNone eq_refl))) 0%nat _ None eq_refl).
Defined.

(** ** List: invoke, attr and item *)



(** ** Dict: counting and testing entries *)

Lemma loop_all2_forallb (g : callable2) (h : heap) (es : entries) :
  Forall (fun e => exists z, g h (fst e) (snd e) = Ok z) es ->
  loop_all2 g h es = Ok (forallb (holds2 (g h) h) es).
Proof.
  induction 1 as [|[k v] es [z Hz] _ IH]; simpl; [reflexivity|].
  simpl in Hz. unfold holds2 at 1. simpl. rewrite Hz. simpl.
  destruct (truthy h z); [exact IH|reflexivity].
Qed.

Lemma loop_some2_existsb (g : callable2) (h : heap) (es : entries) :
  Forall (fun e => exists z, g h (fst e) (snd e) = Ok z) es ->
  loop_some2 g h es = Ok (existsb (holds2 (g h) h) es).
Proof.
  induction 1 as [|[k v] es [z Hz] _ IH]; simpl; [reflexivity|].
  simpl in Hz. unfold holds2 at 1. simpl. rewrite Hz. simpl.
  destruct (truthy h z); [reflexivity|exact IH].
Qed.

(** [Dict(self)] on a dict: the same entries in a new object. *)
Lemma Dict_self_run (h : heap) (m : addr) (es : entries) (moka_save : bool)
    (lv : option val) :
  h !! m = Some (ODict es moka_save lv) ->
  keys_wf es = true ->
  Dict.Dict_self m h = Ok (VRef (length h), h ++ [ODict es false None]).
Proof.
  intros Hm Hes. unfold Dict.Dict_self, Dict.__init__, dict_update.
  rewrite (entries_of_lookup h m es moka_save lv Hm). simpl.
  rewrite (update_pairs_fresh es [] Hes). reflexivity.
Qed.

(** What [keep] and [rem] return on a [Dict] whose [_moka_save] is unset,
    when the callback returns on every entry. *)
Lemma Dict_filter_run (sense : bool) (h : heap) (m : addr) (es : entries)
    (lv : option val) (f : pyfun) (args : list val) (kw : kwargs) :
  h !! m = Some (ODict es false lv) ->
  keys_wf es = true ->
  Forall (fun e => exists z, f h (fst e :: snd e :: args) kw = Ok z) es ->
  (if sense then Dict.keep m (Some (f, args)) kw h
   else Dict.rem m (Some (f, args)) kw h)
  = Ok (VRef (length h),
        h ++ [ODict (filter (fun e =>
                (if sense
                 then holds2 (fun x y => f h (x :: y :: args) kw) h e
                 else fails2 (fun x y => f h (x :: y :: args) kw) h e)
                = true) es) false None]).
Proof.
  intros Hm Hes Hret.
  destruct (Dict_transforms_by_flag h m es false lv f args kw Hm)
    as (_ & Hkeep & Hrem).
  simpl in Hkeep, Hrem.
  destruct sense; [rewrite Hkeep|rewrite Hrem];
    rewrite (gen_filter2_verdict _ (fun h x y => f h (x :: y :: args) kw)
               h es [] Hret);
    rewrite update_pairs_fresh by (apply keys_wf_filter, Hes);
    reflexivity.
Qed.

(** X15. [M.count()] is the number of entries of [M]. [M.count(pred)]
    is the number of entries on which [pred] holds, whatever
    [_moka_save] is: it filters a copy of [M], and [pred] runs with that
    copy in the store. With [_moka_save] unset, [M.keep(pred).count()]
    is that number too. *)
Theorem Dict_count_entries (h : heap) (m : addr) (es : entries)
    (moka_save : bool) (lv : option val) (f : pyfun) (args : list val)
    (kw : kwargs) :
  h !! m = Some (ODict es moka_save lv) ->
  keys_wf es = true ->
  Dict.count m None [] h = Ok (VInt (Z.of_nat (length es)), h) /\
  (Forall (fun e => exists z,
             f (h ++ [ODict es false None]) (fst e :: snd e :: args) kw
             = Ok z) es ->
   value_of (Dict.count m (Some (f, args)) kw h)
   = Ok (VInt (Z.of_nat (length (filter (fun e =>
             holds2 (fun x y => f (h ++ [ODict es false None])
                                  (x :: y :: args) kw)
               (h ++ [ODict es false None]) e = true) es))))) /\
  (moka_save = false ->
   Forall (fun e => exists z, f h (fst e :: snd e :: args) kw = Ok z) es ->
   value_of (r <- Dict.keep m (Some (f, args)) kw h ;;
             send (fst r) (fun b => Dict.count b None []) (snd r))
   = Ok (VInt (Z.of_nat (length (filter (fun e =>
             holds2 (fun x y => f h (x :: y :: args) kw) h e = true)
             es))))).
Proof.
  intros Hm Hes. split; [|split].
  - unfold Dict.count. simpl. rewrite Hm. reflexivity.
  - intros Hret. unfold Dict.count. cbn [no_args andb].
    rewrite (Dict_self_run h m es moka_save lv Hm Hes).
    cbn [bind fst snd send].
    rewrite (Dict_filter_run true _ (length h) es None f args kw
               (lookup_new h _) Hes Hret).
    cbn [bind fst snd len]. rewrite lookup_new. reflexivity.
  - intros -> Hret.
    rewrite (Dict_filter_run true h m es lv f args kw Hm Hes Hret).
    cbn [bind fst snd send]. unfold Dict.count. simpl.
    rewrite lookup_new. reflexivity.
Qed.

(** [M = {'a': 1, 'b': -2}]: [M.count(lambda k, v: v > 0)] is 1. *)
Lemma Dict_count_entries_example :
  value_of (Dict.count 0%nat (Some (positive_value, [])) []
              [ODict [(VStr "a", VInt 1); (VStr "b", VInt (-2))] false None])
  = Ok (VInt 1).
Proof.
  refine (proj1 (proj2
    (Dict_count_entries
       [ODict [(VStr "a", VInt 1); (VStr "b", VInt (-2))] false None]
       0%nat _ false None positive_value [] [] eq_refl eq_refl)) _).
  repeat constructor; simpl; eauto.
Defined.

Lemma filter_fails2_forallb (p : val -> val -> result val) (h : heap)
    (es : entries) :
  Forall (fun e => exists z, p (fst e) (snd e) = Ok z) es ->
  (Z.of_nat (length (filter (fun e => fails2 p h e = true) es)) =? 0)
  = forallb (holds2 p h) es.
Proof.
  induction 1 as [|e es [z Hz] _ IH]; [reflexivity|].
  rewrite filter_cons. simpl.
  assert (Hv : fails2 p h e = negb (holds2 p h e)).
  { unfold holds2, fails2. rewrite Hz. reflexivity. }
  destruct (decide (fails2 p h e = true)) as [E|E].
  - rewrite Hv in E. apply negb_true_iff in E. rewrite E. reflexivity.
  - apply not_true_is_false in E. rewrite Hv in E.
    apply negb_false_iff in E. rewrite E. exact IH.
Qed.

(** X16. On a [Dict], [all(pred)] says that [pred] holds on every entry
    and [some(pred)] that it holds on one, when [pred] returns on every
    entry. [empty()] says that there is no entry; [empty(pred)] is
    [all(pred)] with [pred] run on a copy: [pred] sees a store with that
    copy added, and is run on every entry. *)
Theorem Dict_empty_is_all (h : heap) (m : addr) (es : entries)
    (moka_save : bool) (lv : option val) (f : pyfun) (args : list val)
    (kw : kwargs) :
  h !! m = Some (ODict es moka_save lv) ->
  keys_wf es = true ->
  Dict.empty m None [] h = Ok (VBool (bool_decide (es = [])), h) /\
  (Forall (fun e => exists z, f h (fst e :: snd e :: args) kw = Ok z) es ->
   Dict.all m (Some (f, args)) kw h
   = Ok (VBool (forallb (holds2 (fun x y => f h (x :: y :: args) kw) h) es),
         h) /\
   Dict.some m (Some (f, args)) kw h
   = Ok (VBool (existsb (holds2 (fun x y => f h (x :: y :: args) kw) h) es),
         h)) /\
  (Forall (fun e => exists z,
             f (h ++ [ODict es false None]) (fst e :: snd e :: args) kw
             = Ok z) es ->
   value_of (Dict.empty m (Some (f, args)) kw h)
   = Ok (VBool (forallb
                  (holds2 (fun x y => f (h ++ [ODict es false None])
                                        (x :: y :: args) kw)
                     (h ++ [ODict es false None])) es))).
Proof.
  intros Hm Hes. split; [|split].
  - unfold Dict.empty. simpl. rewrite Hm. simpl.
    destruct es; reflexivity.
  - intros Hret. unfold Dict.all, Dict.some. simpl.
    rewrite (entries_of_lookup h m es moka_save lv Hm). simpl.
    rewrite (loop_all2_forallb (fun h x y => f h (x :: y :: args) kw)
               h es Hret).
    rewrite (loop_some2_existsb (fun h x y => f h (x :: y :: args) kw)
               h es Hret).
    split; reflexivity.
  - intros Hret. unfold Dict.empty. cbn [no_args andb].
    rewrite (Dict_self_run h m es moka_save lv Hm Hes).
    cbn [bind fst snd send].
    rewrite (Dict_filter_run false _ (length h) es None f args kw
               (lookup_new h _) Hes Hret).
    cbn [bind fst snd len]. rewrite lookup_new.
    cbn [bind value_of fst snd].
    rewrite (filter_fails2_forallb _ _ es Hret). reflexivity.
Qed.

(** [M = {'a': 1, 'b': -2}]: [M.empty(lambda k, v: v > 0)] is [False],
    on a dict that is not empty for any reading of the word. *)
Lemma Dict_empty_is_all_example :
  value_of (Dict.empty 0%nat (Some (positive_value, [])) []
              [ODict [(VStr "a", VInt 1); (VStr "b", VInt (-2))] false None])
  = Ok (VBool false).
Proof.
  refine (proj2 (proj2
    (Dict_empty_is_all
       [ODict [(VStr "a", VInt 1); (VStr "b", VInt (-2))] false None]
       0%nat _ false None positive_value [] [] eq_refl eq_refl)) _).
  repeat constructor; simpl; eauto.
Defined.

(** ** Dict: copies *)

(** X17. [M.copy()] and [M.clone()] give a new [Dict] with the entries of
    [M] in their order, but not its attributes: [_moka_save] is unset and
    there is no [last_value] on the copy, whatever [M] has. So [keep] on
    the clone of a [Dict] whose [_moka_save] is set returns a [Dict]
    again. [M] is as it was. *)
Theorem Dict_copy_resets (h : heap) (m : addr) (es : entries)
    (moka_save : bool) (lv : option val) (f : pyfun) (args : list val)
    (kw : kwargs) :
  h !! m = Some (ODict es moka_save lv) ->
  keys_wf es = true ->
  Dict.copy m h = Ok (VRef (length h), h ++ [ODict es false None]) /\
  Dict.clone m h = Ok (VRef (length h), h ++ [ODict es false None]) /\
  m <> length h /\
  (h ++ [ODict es false None]) !! m = Some (ODict es moka_save lv) /\
  (Forall (fun e => exists z,
             f (h ++ [ODict es false None]) (fst e :: snd e :: args) kw
             = Ok z) es ->
   (r <- Dict.clone m h ;;
    send (fst r) (fun c => Dict.keep c (Some (f, args)) kw) (snd r))
   = Ok (VRef (S (length h)),
         h ++ [ODict es false None]
           ++ [ODict (filter (fun e =>
                  holds2 (fun x y => f (h ++ [ODict es false None])
                                       (x :: y :: args) kw)
                    (h ++ [ODict es false None]) e = true) es)
                 false None])).
Proof.
  intros Hm Hes.
  pose proof (lookup_lt_Some _ _ _ Hm) as Hlt.
  unfold Dict.copy, Dict.clone.
  rewrite (Dict_self_run h m es moka_save lv Hm Hes).
  repeat split.
  - lia.
  - rewrite lookup_app_l by exact Hlt. exact Hm.
  - intros Hret. cbn [bind fst snd send].
    rewrite (Dict_filter_run true _ (length h) es None f args kw
               (lookup_new h _) Hes Hret).
    rewrite length_app. simpl. rewrite Nat.add_1_r, <- app_assoc.
    reflexivity.
Qed.

(** [M = {'a': 1, 'b': -2}] with [_moka_save] set and a [last_value]:
    [M.clone().keep(lambda k, v: v > 0)] is a new [Dict], [{'a': 1}]. *)
Lemma Dict_copy_resets_example :
  (r <- Dict.clone 0%nat
          [ODict [(VStr "a", VInt 1); (VStr "b", VInt (-2))] true
             (Some (VInt 7))] ;;
   send (fst r) (fun c => Dict.keep c (Some (positive_value, [])) [])
     (snd r))
  = Ok (VRef 2%nat,
        [ODict [(VStr "a", VInt 1); (VStr "b", VInt (-2))] true
           (Some (VInt 7));
         ODict [(VStr "a", VInt 1); (VStr "b", VInt (-2))] false None;
         ODict [(VStr "a", VInt 1)] false None]).
Proof.
  refine (proj2 (proj2 (proj2 (proj2
    (Dict_copy_resets
       [ODict [(VStr "a", VInt 1); (VStr "b", VInt (-2))] true
          (Some (VInt 7))]
       0%nat _ true (Some (VInt 7)) positive_value [] []
       eq_refl eq_refl)))) _).
  repeat constructor; simpl; eauto.
Defined.

(** ** Keys *)

Lemma key_eq_norm (v w : val) :
  key_eq v w = true <-> key_norm v = key_norm w.
Proof.
  revert w. induction v as [| b | z | s | | x IHx y IHy | a]; intros w;
    destruct w as [| b' | z' | s' | | x' y' | a']; simpl;
    try (split; [discriminate|discriminate]);
    try (split; reflexivity).
  - destruct b, b'; simpl; split; (reflexivity || discriminate).
  - destruct b; rewrite Z.eqb_eq; split; congruence.
  - destruct b'; rewrite Z.eqb_eq; split; congruence.
  - rewrite Z.eqb_eq; split; congruence.
  - rewrite String.eqb_eq. split; congruence.
  - rewrite andb_true_iff, IHx, IHy.
    split; [intros [-> ->]; reflexivity|intros [= -> ->]; auto].
  - rewrite Nat.eqb_eq. split; congruence.
Qed.

Lemma key_eq_refl (k : val) : key_eq k k = true.
Proof. apply key_eq_norm. reflexivity. Qed.

Lemma key_eq_trans_false (k1 k2 k : val) :
  key_eq k1 k2 = true -> key_eq k1 k = key_eq k2 k.
Proof.
  intros H. apply key_eq_norm in H.
  destruct (key_eq k1 k) eqn:E1, (key_eq k2 k) eqn:E2; try reflexivity.
  - apply key_eq_norm in E1.
    assert (E : key_eq k2 k = true) by (apply key_eq_norm; congruence).
    congruence.
  - apply key_eq_norm in E2.
    assert (E : key_eq k1 k = true) by (apply key_eq_norm; congruence).
    congruence.
Qed.

(** [d[k1] = v1] and then [d.get(k)] *)
Lemma dict_get_assoc_set (k1 v1 k : val) (es : entries) :
  dict_get k (assoc_set k1 v1 es)
  = if key_eq k1 k then Some v1 else dict_get k es.
Proof.
  induction es as [|[k' v'] es IH]; simpl; [reflexivity|].
  destruct (key_eq k' k1) eqn:E; simpl.
  - rewrite (key_eq_trans_false k' k1 k E).
    destruct (key_eq k1 k); reflexivity.
  - rewrite IH. destruct (key_eq k' k) eqn:E'; [|reflexivity].
    destruct (key_eq k1 k) eqn:E1; [|reflexivity].
    apply key_eq_norm in E', E1.
    assert (E2 : key_eq k' k1 = true) by (apply key_eq_norm; congruence).
    congruence.
Qed.

Lemma dict_get_fresh (k1 k : val) (es : entries) :
  key_eq k1 k = true ->
  forallb (fun e => negb (key_eq k1 (fst e))) es = true ->
  dict_get k es = None.
Proof.
  intros Hk. induction es as [|[k' v'] es IH]; simpl; [reflexivity|].
  intros H. apply andb_true_iff in H as [Hk' Hes].
  apply negb_true_iff in Hk'.
  destruct (key_eq k' k) eqn:E; [|exact (IH Hes)].
  apply key_eq_norm in Hk, E.
  assert (E2 : key_eq k1 k' = true) by (apply key_eq_norm; congruence).
  congruence.
Qed.

(** [d.update(b)] and then [d.get(k)], for a dict [b] *)
Lemma dict_get_update_pairs (ps es es' : entries) (k : val) :
  keys_wf ps = true ->
  update_pairs ps es = Ok es' ->
  dict_get k es'
  = match dict_get k ps with Some v => Some v | None => dict_get k es end.
Proof.
  revert es. induction ps as [|[k1 v1] ps IH]; intros es Hwf; simpl.
  - intros [= <-]. reflexivity.
  - simpl in Hwf. apply andb_true_iff in Hwf as [Hwf Hps].
    apply andb_true_iff in Hwf as [Hk1 Hfresh].
    unfold setitem. rewrite Hk1. simpl. intros H.
    rewrite (IH _ Hps H), dict_get_assoc_set.
    destruct (key_eq k1 k) eqn:E; [|reflexivity].
    rewrite (dict_get_fresh k1 k ps E Hfresh). reflexivity.
Qed.

Lemma keys_wf_hashable (es : entries) :
  keys_wf es = true -> forallb (fun e => hashable (fst e)) es = true.
Proof.
  induction es as [|[k v] es IH]; simpl; [reflexivity|].
  intros H. apply andb_true_iff in H as [H Hes].
  apply andb_true_iff in H as [Hk _]. rewrite Hk, (IH Hes). reflexivity.
Qed.

(** ** Dict: the wrapped methods of dict *)

Lemma Dict_proxy_run (name : string) (mth : dict_builtin) (h : heap)
    (m : addr) (es es' : entries) (moka_save : bool) (lv : option val)
    (args : list val) (kw : kwargs) :
  h !! m = Some (ODict es moka_save lv) ->
  keys_wf es = true ->
  getattr_dict name = Ok mth ->
  mth (h ++ [ODict es false None]) es args kw = Ok es' ->
  Dict._proxy name m args kw h
    = Ok (VRef (length h), h ++ [ODict es' false None]).
Proof.
  intros Hm Hes Hname Hrun. unfold Dict._proxy.
  rewrite (Dict_self_run h m es moka_save lv Hm Hes).
  cbn [bind fst snd]. rewrite Hname. cbn [bind].
  rewrite lookup_new, Hrun. cbn [bind].
  replace (length h) with (length h + 0)%nat at 2 by lia.
  rewrite insert_app_r. reflexivity.
Qed.

(** X18. [M.update(B)] and [M.clear()] work on a copy: they return a new
    [Dict] and leave [M] (and [B]) with the entries they had. What
    [M.clear()] returns has no entry; what [M.update(B)] returns gives,
    for each key, the value [B] has for it, and the value [M] has when
    [B] has none. *)
Theorem Dict_adapters_copy (h : heap) (m b : addr) (es es2 : entries)
    (moka_save s2 : bool) (lv lv2 : option val) :
  h !! m = Some (ODict es moka_save lv) ->
  keys_wf es = true ->
  h !! b = Some (ODict es2 s2 lv2) ->
  keys_wf es2 = true ->
  Dict.clear m [] [] h = Ok (VRef (length h), h ++ [ODict [] false None]) /\
  exists es',
    Dict.update m [VRef b] [] h
    = Ok (VRef (length h), h ++ [ODict es' false None]) /\
    keys_wf es' = true /\
    forall k,
      dict_get k es'
      = match dict_get k es2 with
        | Some v => Some v
        | None => dict_get k es
        end.
Proof.
  intros Hm Hes Hb Hes2. split.
  - apply (Dict_proxy_run "clear" dict_clear h m es [] moka_save lv [] []
             Hm Hes); reflexivity.
  - destruct (update_pairs_total es2 es (keys_wf_hashable es2 Hes2))
      as [es' Hes'].
    exists es'. split; [|split].
    + apply (Dict_proxy_run "update" dict_update_method h m es es'
               moka_save lv [VRef b] [] Hm Hes); [reflexivity|].
      unfold dict_update_method, dict_arg_of.
      rewrite lookup_app_l by exact (lookup_lt_Some _ _ _ Hb).
      rewrite Hb. cbn [bind]. unfold dict_update. rewrite Hes'.
      reflexivity.
    + exact (update_pairs_wf es2 es es' Hes Hes').
    + intros k. exact (dict_get_update_pairs es2 es es' k Hes2 Hes').
Qed.

(** [M = {'a': 1, 'b': 2}] and [B = {'b': 5}]: what [M.update(B)]
    returns has [5] under ['b'] and [1] under ['a']. *)
Lemma Dict_adapters_copy_example :
  exists es',
    Dict.update 0%nat [VRef 1%nat] []
      [ODict [(VStr "a", VInt 1); (VStr "b", VInt 2)] false None;
       ODict [(VStr "b", VInt 5)] false None]
    = Ok (VRef 2%nat,
          [ODict [(VStr "a", VInt 1); (VStr "b", VInt 2)] false None;
           ODict [(VStr "b", VInt 5)] false None;
           ODict es' false None]) /\
    dict_get (VStr "b") es' = Some (VInt 5) /\
    dict_get (VStr "a") es' = Some (VInt 1).
Proof.
  destruct (Dict_adapters_copy
              [ODict [(VStr "a", VInt 1); (VStr "b", VInt 2)] false None;
               ODict [(VStr "b", VInt 5)] false None]
              0%nat 1%nat _ _ false false None None
              eq_refl eq_refl eq_refl eq_refl) as (_ & es' & H & _ & Hget).
  exists es'. split; [exact H|].
  split; [exact (Hget (VStr "b"))|exact (Hget (VStr "a"))].
Defined.

(** ** Dict: what [map] builds *)

(** X19. The callback of [Dict.map] has to return pairs. With a callback
    that returns something that cannot be iterated (a number, a boolean,
    [None]) on every entry, [map] raises [TypeError] as soon as the
    [Dict] has an entry; on a [Dict] without entries the callback is not
    called and [map] returns a new [Dict] without entries. *)
Theorem Dict_map_needs_pairs (h : heap) (m : addr) (es : entries)
    (lv : option val) (f : pyfun) (args : list val) (kw : kwargs) :
  h !! m = Some (ODict es false lv) ->
  Forall (fun e => exists z,
            f h (fst e :: snd e :: args) kw = Ok z /\ scalar z = true) es ->
  Dict.map m (Some (f, args)) kw h
  = match es with
    | [] => Ok (VRef (length h), h ++ [ODict [] false None])
    | _ :: _ => Raise TypeError
    end.
Proof.
  intros Hm Hret.
  destruct (Dict_transforms_by_flag h m es false lv f args kw Hm)
    as (Hmap & _ & _).
  simpl in Hmap. rewrite Hmap. clear Hmap.
  destruct Hret as [|[k v] es (z & Hz & Hsc) _]; [reflexivity|].
  simpl in Hz. simpl. rewrite Hz. simpl.
  unfold as_pair. destruct z; try discriminate; reflexivity.
Qed.

(** [M = {'a': 1}]: [M.map(lambda k, v: v > 0)] raises [TypeError]. *)
Lemma Dict_map_needs_pairs_example :
  Dict.map 0%nat (Some (positive_value, [])) []
    [ODict [(VStr "a", VInt 1)] false None]
  = Raise TypeError.
Proof.
  apply (Dict_map_needs_pairs
           [ODict [(VStr "a", VInt 1)] false None] 0%nat
           [(VStr "a", VInt 1)] None positive_value [] [] eq_refl).
  repeat constructor. simpl. eauto.
Defined.

Lemma forallb_fst {A B} (q : A -> bool) (l : list (A * B)) :
  forallb (fun e => q (fst e)) l = forallb q (fst <$> l).
Proof.
  induction l as [|[a b] l IH]; simpl; [reflexivity|].
  rewrite IH. reflexivity.
Qed.

(** Whether the entries make a dict depends on their keys only. *)
Lemma keys_wf_same_keys (es es' : entries) :
  fst <$> es = fst <$> es' -> keys_wf es = keys_wf es'.
Proof.
  revert es'. induction es as [|[k v] es IH]; intros [|[k' v'] es'];
    simpl; try discriminate; [reflexivity|].
  intros [= -> Hks]. rewrite (IH es' Hks).
  f_equal. f_equal.
  rewrite (forallb_fst (fun x => negb (key_eq k' x)) es).
  rewrite (forallb_fst (fun x => negb (key_eq k' x)) es').
  exact (f_equal (forallb (fun x => negb (key_eq k' x))) Hks).
Qed.

Lemma gen_map2_pairs (g : callable2) (h : heap) (es ps acc : entries) :
  Forall2 (fun e p => g h (fst e) (snd e) = Ok (pair_val p)) es ps ->
  update_gen h (gen_map2 g h es) acc = update_pairs ps acc.
Proof.
  intros H.
  rewrite (gen_map2_Forall2 g h es (pair_val <$> ps) acc).
  - apply update_items_pairs.
  - induction H; simpl; constructor; auto.
Qed.

(** What [map] returns on a [Dict] whose [_moka_save] is unset, when the
    callback returns the pairs [ps], in the order of the entries. *)
Lemma Dict_map_run (h : heap) (m : addr) (es ps : entries)
    (lv : option val) (f : pyfun) (args : list val) (kw : kwargs) :
  h !! m = Some (ODict es false lv) ->
  Forall2 (fun e p => f h (fst e :: snd e :: args) kw = Ok (pair_val p))
    es ps ->
  Dict.map m (Some (f, args)) kw h
  = (es' <- update_pairs ps [] ;;
     Ok (VRef (length h), h ++ [ODict es' false None])).
Proof.
  intros Hm Hps.
  destruct (Dict_transforms_by_flag h m es false lv f args kw Hm)
    as (Hmap & _ & _).
  simpl in Hmap. rewrite Hmap.
  rewrite (gen_map2_pairs (fun h x y => f h (x :: y :: args) kw) h es ps []
             Hps).
  reflexivity.
Qed.

(** X20. A callback that returns each key with a new value,
    [lambda k, v: (k, g(k, v))], makes [map] return a [Dict] with the
    keys of [M], in their order, each with its new value. *)
Theorem Dict_map_values (h : heap) (m : addr) (es : entries)
    (lv : option val) (f : pyfun) (args : list val) (kw : kwargs)
    (vs : list val) :
  h !! m = Some (ODict es false lv) ->
  keys_wf es = true ->
  Forall2 (fun e v => f h (fst e :: snd e :: args) kw = Ok (VPair (fst e) v))
    es vs ->
  Dict.map m (Some (f, args)) kw h
  = Ok (VRef (length h), h ++ [ODict (zip (fst <$> es) vs) false None]).
Proof.
  intros Hm Hes Hf.
  assert (Hlen : length es = length vs)
    by (clear Hm Hes; induction Hf; simpl; congruence).
  assert (Hkeys : fst <$> zip (fst <$> es) vs = fst <$> es).
  { apply fst_zip. rewrite length_fmap. lia. }
  rewrite (Dict_map_run h m es (zip (fst <$> es) vs) lv f args kw Hm).
  - rewrite (update_pairs_fresh (zip (fst <$> es) vs) []); [reflexivity|].
    simpl. rewrite (keys_wf_same_keys _ es Hkeys). exact Hes.
  - clear Hm Hes Hlen Hkeys.
    induction Hf as [|[k v] v' es vs Hz _ IH]; simpl; constructor; auto.
Qed.

(** [lambda k, v: (k, v + 1)] *)
Lemma Dict_map_values_example :
  Dict.map 0%nat
    (Some ((fun _ a kw =>
              match a, kw with
              | [k; VInt v], [] => Ok (VPair k (VInt (v + 1)))
              | _, _ => Raise TypeError
              end), [])) []
    [ODict [(VStr "a", VInt 1); (VStr "b", VInt 2)] false None]
  = Ok (VRef 1%nat,
        [ODict [(VStr "a", VInt 1); (VStr "b", VInt 2)] false None;
         ODict [(VStr "a", VInt 2); (VStr "b", VInt 3)] false None]).
Proof.
  apply (Dict_map_values
           [ODict [(VStr "a", VInt 1); (VStr "b", VInt 2)] false None]
           0%nat [(VStr "a", VInt 1); (VStr "b", VInt 2)] None _ [] []
           [VInt 2; VInt 3] eq_refl eq_refl).
  repeat constructor.
Defined.

Lemma update_pairs_same_key_acc (k : val) (vs : list val) (v0 v : val) :
  hashable k = true ->
  update_pairs ((fun v => (k, v)) <$> vs ++ [v]) [(k, v0)] = Ok [(k, v)].
Proof.
  intros Hk. revert v0. induction vs as [|v1 vs IH]; intros v0; simpl;
    unfold setitem; rewrite Hk; simpl; rewrite key_eq_refl;
    [reflexivity|apply IH].
Qed.

Lemma update_pairs_same_key (k : val) (vs : list val) (v : val) :
  hashable k = true ->
  update_pairs ((fun v => (k, v)) <$> vs ++ [v]) [] = Ok [(k, v)].
Proof.
  intros Hk. destruct vs as [|v1 vs]; simpl; unfold setitem; rewrite Hk;
    simpl; [reflexivity|apply update_pairs_same_key_acc, Hk].
Qed.

(** X21. [map] can lose entries: when the callback gives every entry the
    same key, what [map] returns has one entry, with the value given to
    the last entry of [M]. *)
Theorem Dict_map_same_key (h : heap) (m : addr) (es : entries)
    (lv : option val) (f : pyfun) (args : list val) (kw : kwargs)
    (k : val) (vs : list val) (v : val) :
  h !! m = Some (ODict es false lv) ->
  hashable k = true ->
  Forall2 (fun e v => f h (fst e :: snd e :: args) kw = Ok (VPair k v))
    es (vs ++ [v]) ->
  Dict.map m (Some (f, args)) kw h
  = Ok (VRef (length h), h ++ [ODict [(k, v)] false None]).
Proof.
  intros Hm Hk Hf.
  rewrite (Dict_map_run h m es ((fun v => (k, v)) <$> vs ++ [v]) lv f args
             kw Hm).
  - rewrite (update_pairs_same_key k vs v Hk). reflexivity.
  - clear Hm. revert Hf. generalize (vs ++ [v]). intros ws Hf.
    induction Hf as [|[k' v'] v1 es ws Hz _ IH]; simpl; constructor; auto.
Qed.

(** [M = {'a': 1, 'b': 2}]: [M.map(lambda k, v: (0, v))] is [{0: 2}]. *)
Lemma Dict_map_same_key_example :
  Dict.map 0%nat
    (Some ((fun _ a kw =>
              match a, kw with
              | [k; v], [] => Ok (VPair (VInt 0) v)
              | _, _ => Raise TypeError
              end), [])) []
    [ODict [(VStr "a", VInt 1); (VStr "b", VInt 2)] false None]
  = Ok (VRef 1%nat,
        [ODict [(VStr "a", VInt 1); (VStr "b", VInt 2)] false None;
         ODict [(VInt 0, VInt 2)] false None]).
Proof.
  apply (Dict_map_same_key
           [ODict [(VStr "a", VInt 1); (VStr "b", VInt 2)] false None]
           0%nat [(VStr "a", VInt 1); (VStr "b", VInt 2)] None _ [] []
           (VInt 0) [VInt 1] (VInt 2) eq_refl eq_refl).
  repeat constructor.
Defined.

(** ** Dict: [fromkeys] *)

Lemma update_pairs_unhashable (ps es : entries) :
  forallb (fun e => hashable (fst e)) ps = false ->
  update_pairs ps es = Raise TypeError.
Proof.
  revert es. induction ps as [|[k v] ps IH]; intros es; simpl;
    [discriminate|].
  unfold setitem. destruct (hashable k); simpl; [apply IH|reflexivity].
Qed.

Lemma dict_get_same_value (ks : list val) (v k : val) (acc es : entries) :
  update_pairs ((fun k => (k, v)) <$> ks) acc = Ok es ->
  dict_get k es
  = if existsb (fun k' => key_eq k' k) ks then Some v else dict_get k acc.
Proof.
  revert acc. induction ks as [|k1 ks IH]; intros acc; simpl.
  - intros [= <-]. reflexivity.
  - unfold setitem. destruct (hashable k1); simpl; [|discriminate].
    intros H. rewrite (IH _ H), dict_get_assoc_set.
    destruct (key_eq k1 k), (existsb (fun k' => key_eq k' k) ks);
      reflexivity.
Qed.

(** X22. [Dict.fromkeys(L, v)], for a [List] [L] of hashable items, is a
    new [Dict] that has [v] under every item of [L] and nothing under
    any other key; an item that cannot be hashed makes it raise
    [TypeError]. Without [v], the value is [None]. *)
Theorem Dict_fromkeys_new (h : heap) (b : addr) (ks : list val)
    (lvb : option val) (v : val) :
  h !! b = Some (OList ks lvb) ->
  (forallb hashable ks = true ->
   exists es,
     Dict.fromkeys [VRef b; v] [] h
     = Ok (VRef (length h), h ++ [ODict es false None]) /\
     keys_wf es = true /\
     forall k,
       dict_get k es
       = if existsb (fun k' => key_eq k' k) ks then Some v else None) /\
  (forallb hashable ks = false ->
   Dict.fromkeys [VRef b; v] [] h = Raise TypeError) /\
  Dict.fromkeys [VRef b] [] h = Dict.fromkeys [VRef b; VNone] [] h.
Proof.
  intros Hb.
  assert (Hrun : Dict.fromkeys [VRef b; v] [] h
                 = (es <- update_pairs ((fun k => (k, v)) <$> ks) [] ;;
                    Dict.__init__ (Mapping es) [] h)).
  { unfold Dict.fromkeys, dict_fromkeys. simpl. rewrite Hb. reflexivity. }
  assert (Hks : forallb (fun e : val * val => hashable (fst e))
                  ((fun k => (k, v)) <$> ks)
                = forallb hashable ks).
  { clear. induction ks as [|k ks IH]; simpl; [reflexivity|].
    f_equal. exact IH. }
  split; [|split].
  - intros Hh. rewrite <- Hks in Hh.
    destruct (update_pairs_total _ [] Hh) as [es Hes].
    assert (Hwf : keys_wf es = true)
      by exact (update_pairs_wf _ [] es eq_refl Hes).
    exists es. split; [|split].
    + rewrite Hrun, Hes. simpl. unfold Dict.__init__, dict_update. simpl.
      rewrite (update_pairs_fresh es [] Hwf). reflexivity.
    + exact Hwf.
    + intros k. exact (dict_get_same_value ks v k [] es Hes).
  - intros Hh. rewrite <- Hks in Hh.
    rewrite Hrun, (update_pairs_unhashable _ [] Hh). reflexivity.
  - unfold Dict.fromkeys, dict_fromkeys. reflexivity.
Qed.

(** [Dict.fromkeys(List(['a', 'b', 'a']), 0)] has [0] under ['b']. *)
Lemma Dict_fromkeys_new_example :
  exists es,
    Dict.fromkeys [VRef 0%nat; VInt 0] []
      [OList [VStr "a"; VStr "b"; VStr "a"] None]
    = Ok (VRef 1%nat,
          [OList [VStr "a"; VStr "b"; VStr "a"] None; ODict es false None])
    /\ dict_get (VStr "b") es = Some (VInt 0)
    /\ dict_get (VStr "c") es = None.
Proof.
  destruct (proj1 (Dict_fromkeys_new
                     [OList [VStr "a"; VStr "b"; VStr "a"] None] 0%nat
                     [VStr "a"; VStr "b"; VStr "a"] None (VInt 0) eq_refl)
              eq_refl) as (es & H & _ & Hget).
  exists es. split; [exact H|].
  split; [exact (Hget (VStr "b"))|exact (Hget (VStr "c"))].
Defined.

(** ** Dict: errors of the callback *)

(** [dict] stops drawing from the generator of [keep] or [rem] at the
    first entry on which the callback raises: the entries before it are
    stored, their keys being those of a dict. *)
Lemma gen_filter2_raise (sense : bool) (g : callable2) (h : heap)
    (es1 es2 acc : entries) (e : val * val) (x : exn) :
  forallb (fun e => hashable (fst e)) es1 = true ->
  Forall (fun e => exists z, g h (fst e) (snd e) = Ok z) es1 ->
  g h (fst e) (snd e) = Raise x ->
  update_gen h (gen_filter2 sense g h (es1 ++ e :: es2)) acc = Raise x.
Proof.
  intros Hh H Hx. revert acc.
  induction H as [|[k v] es1 [z Hz] _ IH]; intros acc; simpl.
  - destruct e as [k v]. simpl in Hx. rewrite Hx. reflexivity.
  - simpl in Hh. apply andb_true_iff in Hh as [Hk Hh].
    simpl in Hz. rewrite Hz. simpl.
    destruct (bool_decide (truthy h z = sense)); simpl;
      [unfold setitem; rewrite Hk; simpl|]; apply (IH Hh).
Qed.

(** X23. On a [Dict], when the callback, having returned on the entries
    before, raises on an entry one of [TypeError], [ValueError],
    [AttributeError], [ZeroDivisionError] or [OverflowError], that
    exception is what [keep] and [rem] raise (when [_moka_save] is
    unset), and what [count(pred)] and [empty(pred)] raise, whatever
    [_moka_save] is: these two run the callback on a copy, in a store
    that has it. ([StopIteration] is not covered: see [exn].) *)
Theorem Dict_first_error (h : heap) (m : addr) (es1 es2 : entries)
    (e : val * val) (moka_save : bool) (lv : option val) (f : pyfun)
    (args : list val) (kw : kwargs) (x : exn) :
  h !! m = Some (ODict (es1 ++ e :: es2) moka_save lv) ->
  keys_wf (es1 ++ e :: es2) = true ->
  (moka_save = false ->
   Forall (fun e => exists z, f h (fst e :: snd e :: args) kw = Ok z) es1 ->
   f h (fst e :: snd e :: args) kw = Raise x ->
   Dict.keep m (Some (f, args)) kw h = Raise x /\
   Dict.rem m (Some (f, args)) kw h = Raise x) /\
  (Forall (fun e' => exists z,
             f (h ++ [ODict (es1 ++ e :: es2) false None])
               (fst e' :: snd e' :: args) kw = Ok z) es1 ->
   f (h ++ [ODict (es1 ++ e :: es2) false None])
     (fst e :: snd e :: args) kw = Raise x ->
   Dict.count m (Some (f, args)) kw h = Raise x /\
   Dict.empty m (Some (f, args)) kw h = Raise x).
Proof.
  intros Hm Hes.
  assert (Hh1 : forallb (fun e : val * val => hashable (fst e)) es1 = true).
  { pose proof (keys_wf_hashable _ Hes) as Hh.
    rewrite forallb_app in Hh. apply andb_true_iff in Hh as [Hh _].
    exact Hh. }
  assert (Hrun : forall h' a lv',
            h' !! a = Some (ODict (es1 ++ e :: es2) false lv') ->
            Forall (fun e => exists z,
                      f h' (fst e :: snd e :: args) kw = Ok z) es1 ->
            f h' (fst e :: snd e :: args) kw = Raise x ->
            Dict.keep a (Some (f, args)) kw h' = Raise x /\
            Dict.rem a (Some (f, args)) kw h' = Raise x).
  { intros h' a lv' Ha Hret Hx.
    destruct (Dict_transforms_by_flag h' a _ false lv' f args kw Ha)
      as (_ & Hkeep & Hrem).
    simpl in Hkeep, Hrem. rewrite Hkeep, Hrem.
    rewrite !(gen_filter2_raise _ (fun h x y => f h (x :: y :: args) kw)
                h' es1 es2 [] e x Hh1 Hret Hx).
    split; reflexivity. }
  split.
  - intros -> Hret Hx. exact (Hrun h m lv Hm Hret Hx).
  - intros Hret Hx.
    destruct (Hrun _ (length h) None (lookup_new h _) Hret Hx)
      as [Hkeep Hrem].
    unfold Dict.count, Dict.empty. cbn [no_args andb].
    rewrite (Dict_self_run h m _ moka_save lv Hm Hes).
    cbn [bind fst snd send]. rewrite Hkeep, Hrem. split; reflexivity.
Qed.

(** [M = {'a': 1, 'b': 0}]: [M.count(lambda k, v: 1 // v)] raises
    [ZeroDivisionError]. *)
Lemma Dict_first_error_example :
  Dict.count 0%nat
    (Some ((fun h a kw =>
              match a with
              | [k; v] => divide h [VInt 1; v] kw
              | _ => Raise TypeError
              end), [])) []
    [ODict [(VStr "a", VInt 1); (VStr "b", VInt 0)] false None]
  = Raise ZeroDivisionError.
Proof.
  refine (proj1 (proj2
    (Dict_first_error
       [ODict [(VStr "a", VInt 1); (VStr "b", VInt 0)] false None] 0%nat
       [(VStr "a", VInt 1)] [] (VStr "b", VInt 0) false None _ [] []
       ZeroDivisionError eq_refl eq_refl) _ eq_refl)).
  repeat constructor. simpl. eauto.
Defined.

(** ** Dict: [map] stops at the first failure *)

Lemma update_gen_app (h : heap) (g1 g2 : generator) (acc : entries) :
  update_gen h (g1 ++ g2) acc
  = (es <- update_gen h g1 acc ;; update_gen h g2 es).
Proof.
  revert acc. induction g1 as [|turn g1 IH]; intros acc; simpl;
    [reflexivity|].
  destruct turn as [[it|]|x]; simpl; [|apply IH|reflexivity].
  destruct (as_pair h it) as [p|x]; simpl; [|reflexivity].
  destruct (setitem (fst p) (snd p) acc); simpl; [apply IH|reflexivity].
Qed.

Lemma gen_map2_app (g : callable2) (h : heap) (es1 es2 : entries) :
  gen_map2 g h (es1 ++ es2) = gen_map2 g h es1 ++ gen_map2 g h es2.
Proof.
  induction es1 as [|[k v] es1 IH]; simpl; [reflexivity|].
  rewrite IH. reflexivity.
Qed.

(** X24. [Dict.map] builds the new [Dict] entry by entry and stops at the
    first entry that fails, whatever the callback would do on the
    entries after it. Let the callback give pairs with hashable keys on
    the entries before [e]. If on [e] it raises one of [TypeError],
    [ValueError], [AttributeError], [ZeroDivisionError] or
    [OverflowError], [map] raises that; if it returns something that
    cannot be iterated, or a pair whose key cannot be hashed, [map]
    raises [TypeError]. *)
Theorem Dict_map_first_failure (h : heap) (m : addr) (es1 es2 ps : entries)
    (e : val * val) (lv : option val) (f : pyfun) (args : list val)
    (kw : kwargs) :
  h !! m = Some (ODict (es1 ++ e :: es2) false lv) ->
  Forall2 (fun e q => f h (fst e :: snd e :: args) kw = Ok (pair_val q))
    es1 ps ->
  forallb (fun q => hashable (fst q)) ps = true ->
  (forall x,
     f h (fst e :: snd e :: args) kw = Raise x ->
     Dict.map m (Some (f, args)) kw h = Raise x) /\
  (forall z,
     f h (fst e :: snd e :: args) kw = Ok z ->
     scalar z = true ->
     Dict.map m (Some (f, args)) kw h = Raise TypeError) /\
  (forall k v,
     f h (fst e :: snd e :: args) kw = Ok (VPair k v) ->
     hashable k = false ->
     Dict.map m (Some (f, args)) kw h = Raise TypeError).
Proof.
  intros Hm Hps Hhash.
  destruct (Dict_transforms_by_flag h m _ false lv f args kw Hm)
    as (Hmap & _ & _).
  simpl in Hmap.
  destruct (update_pairs_total ps [] Hhash) as [acc Hacc].
  assert (Hrun : Dict.map m (Some (f, args)) kw h
                 = (es' <- update_gen h
                             (gen_map2 (fun h x y => f h (x :: y :: args) kw)
                                h (e :: es2)) acc ;;
                    Ok (VRef (length h), h ++ [ODict es' false None]))).
  { rewrite Hmap, gen_map2_app, update_gen_app.
    rewrite (gen_map2_pairs (fun h x y => f h (x :: y :: args) kw) h es1 ps
               [] Hps).
    rewrite Hacc. reflexivity. }
  rewrite Hrun. destruct e as [k0 v0]. simpl.
  split; [|split].
  - intros x Hx. rewrite Hx. reflexivity.
  - intros z Hz Hsc. rewrite Hz. simpl.
    unfold as_pair. destruct z; try discriminate; reflexivity.
  - intros k v Hz Hk. rewrite Hz. simpl.
    unfold setitem. rewrite Hk. reflexivity.
Qed.

(** [M = {'a': 1, 'b': 0, 'c': 'x'}]: [M.map(lambda k, v: (k, 1 // v))]
    raises [ZeroDivisionError], at ['b']; that the callback would raise
    [TypeError] at ['c'] does not show. *)
Lemma Dict_map_first_failure_example :
  Dict.map 0%nat
    (Some ((fun h a kw =>
              match a with
              | [k; v] => q <- divide h [VInt 1; v] kw ;; Ok (VPair k q)
              | _ => Raise TypeError
              end), [])) []
    [ODict [(VStr "a", VInt 1); (VStr "b", VInt 0); (VStr "c", VStr "x")]
       false None]
  = Raise ZeroDivisionError.
Proof.
  refine (proj1 (Dict_map_first_failure
                   [ODict [(VStr "a", VInt 1); (VStr "b", VInt 0);
                           (VStr "c", VStr "x")] false None]
                   0%nat [(VStr "a", VInt 1)] [(VStr "c", VStr "x")]
                   [(VStr "a", VInt 1)] (VStr "b", VInt 0) None _ [] []
                   eq_refl _ eq_refl) ZeroDivisionError _).
  - repeat constructor.
  - reflexivity.
Defined.
